(** * fitCRM: a shallow embedding of [main.js]

    The client manager keeps an array of client records, mirrors it into
    one [localStorage] item as JSON, validates the form before every
    mutation and shows randomly chosen exercises on the detail page.

    Conventions of the embedding.
    - A JavaScript string is a [string]: one [ascii] per UTF-16 code unit,
      which covers the code units U+0000..U+00FF.
    - Numbers that the program uses as integers (ids, epoch milliseconds,
      array indices) are [Z] or [nat].
    - The handlers registered in the [DOMContentLoaded] callback close over
      [clients], [editingId] and [currentViewedId]; here they are functions
      on an explicit [App] state, which also carries the form fields, the
      [localStorage] item and the trace of user-visible effects
      ([alert], [confirm], [console.*], table renders, navigation).
    - [Date.now()], the local time-zone offset, the answer to [confirm] and
      the values of [Math.random()] are inputs of the handlers. *)

From Stdlib Require Import ZArith List String Ascii Bool Lia Arith QArith Qround FinFun.
From Equations Require Import Equations.
Import ListNotations.

Local Open Scope string_scope.
Local Open Scope Z_scope.

(** ** JavaScript string primitives *)

Module JSString.

(** [!s] for a string [s]: the empty string is the only falsy string. *)
Definition falsy (s : string) : bool :=
  match s with EmptyString => true | _ => false end.

Definition truthy (s : string) : bool := negb (falsy s).

(** [a || b] on strings. *)
Definition or_else (a b : string) : string := if truthy a then a else b.

(** WhiteSpace and LineTerminator code units below U+0100: TAB, LF, VT, FF,
    CR, SP and NBSP.  This is both what [trim] strips and what [\s]
    matches. *)
Definition isWhiteSpace (c : ascii) : bool :=
  let n := nat_of_ascii c in
  (((9 <=? n) && (n <=? 13)) || (n =? 32) || (n =? 160))%nat.

Definition isDigit (c : ascii) : bool :=
  let n := nat_of_ascii c in ((48 <=? n) && (n <=? 57))%nat.

Fixpoint trimStart (s : string) : string :=
  match s with
  | EmptyString => EmptyString
  | String c r => if isWhiteSpace c then trimStart r else s
  end.

Fixpoint trimEnd (s : string) : string :=
  match s with
  | EmptyString => EmptyString
  | String c r =>
      let r' := trimEnd r in
      if isWhiteSpace c && falsy r' then EmptyString else String c r'
  end.

(** [s.trim()] *)
Definition trim (s : string) : string := trimEnd (trimStart s).

(** [toLowerCase] on one code unit: A-Z, and the Latin-1 capitals
    U+00C0..U+00DE without the multiplication sign U+00D7. *)
Definition lowerChar (c : ascii) : ascii :=
  let n := nat_of_ascii c in
  if (((65 <=? n) && (n <=? 90)) ||
      ((192 <=? n) && (n <=? 222) && negb (n =? 215)))%nat
  then ascii_of_nat (n + 32) else c.

(** [s.toLowerCase()] *)
Fixpoint toLowerCase (s : string) : string :=
  match s with
  | EmptyString => EmptyString
  | String c r => String (lowerChar c) (toLowerCase r)
  end.

(** [s.includes(q)]: [q] occurs in [s] as a contiguous substring. *)
Fixpoint includes (s q : string) : bool :=
  String.prefix q s ||
  match s with
  | EmptyString => false
  | String _ r => includes r q
  end.

(** [s.replace(/\D/g, empty)]: keep the decimal digits. *)
Fixpoint stripNonDigits (s : string) : string :=
  match s with
  | EmptyString => EmptyString
  | String c r =>
      if isDigit c then String c (stripNonDigits r) else stripNonDigits r
  end.

Definition digitVal (c : ascii) : Z := Z.of_nat (nat_of_ascii c) - 48.

(** Value of the longest prefix of decimal digits, with the number of
    digits read and the rest of the string. *)
Fixpoint readDigits (acc : Z) (count : nat) (s : string) : Z * nat * string :=
  match s with
  | String c r =>
      if isDigit c then readDigits (10 * acc + digitVal c) (S count) r
      else (acc, count, s)
  | EmptyString => (acc, count, s)
  end.

(** [parseInt(s, 10)]; [None] is NaN.  Leading white space is skipped, one
    sign is accepted, and reading stops at the first non-digit. *)
Definition parseInt10 (s : string) : option Z :=
  let s1 := trimStart s in
  let '(sign, s2) :=
    match s1 with
    | String c r =>
        if Ascii.eqb c "-" then (-1, r)
        else if Ascii.eqb c "+" then (1, r)
        else (1, s1)
    | EmptyString => (1, s1)
    end in
  match readDigits 0 0 s2 with
  | (_, O, _) => None
  | (v, _, _) => Some (sign * v)
  end.

(** The character of the decimal digit [m]. *)
Definition digitChar (m : Z) : ascii := ascii_of_nat (Z.to_nat (48 + m)).

(** Decimal digits of a non-negative integer, most significant first, put
    in front of [acc]. *)
Fixpoint natDigits (fuel : nat) (n : Z) (acc : string) : string :=
  match fuel with
  | O => acc
  | S fuel' =>
      let acc' := String (digitChar (n mod 10)) acc in
      if n <? 10 then acc' else natDigits fuel' (n / 10) acc'
  end.

(** Number::toString for an integer (the decimal form, which is what it
    prints below 10^21). *)
Definition numberToString (z : Z) : string :=
  if z <? 0 then String "-" (natDigits (S (Z.to_nat (Z.log2 (- z)))) (- z) EmptyString)
  else natDigits (S (Z.to_nat (Z.log2 z))) z EmptyString.

End JSString.

Import JSString.

(** ** Regular expressions

    [RegExp.prototype.test] for patterns anchored with [^] and [$], by
    Brzozowski derivatives.  A character class is a predicate on code
    units. *)

Module Regex.

Inductive regex : Type :=
| Null : regex
| Eps : regex
| Class : (ascii -> bool) -> regex
| Cat : regex -> regex -> regex
| Alt : regex -> regex -> regex
| Plus : regex -> regex.

Fixpoint nullable (r : regex) : bool :=
  match r with
  | Null => false
  | Eps => true
  | Class _ => false
  | Cat a b => nullable a && nullable b
  | Alt a b => nullable a || nullable b
  | Plus a => nullable a
  end.

(** [deriv c r] matches [w] exactly when [r] matches [c] followed by [w].
    [Plus a] is [a] followed by zero or more [a]: after one step of [a] the
    rest is either finished or starts [Plus a] again. *)
Fixpoint deriv (c : ascii) (r : regex) : regex :=
  match r with
  | Null => Null
  | Eps => Null
  | Class p => if p c then Eps else Null
  | Cat a b =>
      if nullable a then Alt (Cat (deriv c a) b) (deriv c b)
      else Cat (deriv c a) b
  | Alt a b => Alt (deriv c a) (deriv c b)
  | Plus a => Cat (deriv c a) (Alt Eps (Plus a))
  end.

Fixpoint matches (r : regex) (s : string) : bool :=
  match s with
  | EmptyString => nullable r
  | String c w => matches (deriv c r) w
  end.

(** A literal character. *)
Definition Chr (a : ascii) : regex := Class (Ascii.eqb a).

(** A literal letter under the [i] flag: either case. *)
Definition ChrI (a : ascii) : regex :=
  Class (fun c => Ascii.eqb (lowerChar c) (lowerChar a)).

(** A literal word under the [i] flag. *)
Fixpoint WordI (w : string) : regex :=
  match w with
  | EmptyString => Eps
  | String a r => Cat (ChrI a) (WordI r)
  end.

End Regex.

(** ** Dates

    A [Date] holds a time value: milliseconds since the epoch in UTC, or
    NaN ([None]).  The environment gives the current instant and the
    offset of local time from UTC, taken as constant. *)

Module JSDate.

Record Env : Type := mkEnv {
  now : Z;          (* Date.now(): milliseconds since 1970-01-01T00:00Z *)
  tzOffsetMs : Z    (* local time minus UTC, in milliseconds *)
}.

Definition msPerDay : Z := 86400000.

Definition isLeapYear (y : Z) : bool :=
  ((y mod 4 =? 0) && negb (y mod 100 =? 0)) || (y mod 400 =? 0).

Definition daysInMonth (y m : Z) : Z :=
  if m =? 2 then (if isLeapYear y then 29 else 28)
  else if (m =? 4) || (m =? 6) || (m =? 9) || (m =? 11) then 30
  else 31.

(** Days from 1970-01-01 to the civil date [y]-[m]-[d] (proleptic
    Gregorian calendar), the day number that MakeDay computes. *)
Definition daysFromCivil (y m d : Z) : Z :=
  let y' := if m <=? 2 then y - 1 else y in
  let era := y' / 400 in
  let yoe := y' - era * 400 in
  let mp := if m <=? 2 then m + 9 else m - 3 in
  let doy := (153 * mp + 2) / 5 + d - 1 in
  let doe := yoe * 365 + yoe / 4 - yoe / 100 + doy in
  era * 146097 + doe - 719468.

(** Exactly [n] decimal digits at the head of [s]. *)
Fixpoint fixedDigits (n : nat) (acc : Z) (s : string) : option (Z * string) :=
  match n with
  | O => Some (acc, s)
  | S n' =>
      match s with
      | String c r =>
          if isDigit c then fixedDigits n' (10 * acc + digitVal c) r else None
      | EmptyString => None
      end
  end.

(** The calendar date written as [YYYY-MM-DD], the form that a date input
    holds; illegal element values are rejected. *)
Definition parseIsoDate (s : string) : option (Z * Z * Z) :=
  match fixedDigits 4 0 s with
  | Some (y, String "-" s1) =>
      match fixedDigits 2 0 s1 with
      | Some (m, String "-" s2) =>
          match fixedDigits 2 0 s2 with
          | Some (d, EmptyString) =>
              if (1 <=? m) && (m <=? 12) && (1 <=? d) && (d <=? daysInMonth y m)
              then Some (y, m, d) else None
          | _ => None
          end
      | _ => None
      end
  | _ => None
  end.

(** [new Date(s)] for a string: the date-only form denotes midnight UTC of
    that day.  Strings in another form are not parsed by the model and
    yield an invalid date. *)
Definition newDate (s : string) : option Z :=
  match parseIsoDate s with
  | Some (y, m, d) => Some (daysFromCivil y m d * msPerDay)
  | None => None
  end.

(** [d.setHours(0, 0, 0, 0)]: midnight, in local time, of the local day
    that contains the instant. *)
Definition setHoursZero (E : Env) (t : option Z) : option Z :=
  match t with
  | Some u =>
      let localT := u + tzOffsetMs E in
      Some ((localT / msPerDay) * msPerDay - tzOffsetMs E)
  | None => None
  end.

(** [a >= b] and [a > b] on dates: numeric comparison of the time values,
    false as soon as one of them is NaN. *)
Definition geDate (a b : option Z) : bool :=
  match a, b with Some x, Some y => y <=? x | _, _ => false end.

Definition gtDate (a b : option Z) : bool :=
  match a, b with Some x, Some y => y <? x | _, _ => false end.

(** The local calendar day (days since the epoch) of an instant. *)
Definition localDay (E : Env) (u : Z) : Z := (u + tzOffsetMs E) / msPerDay.

(** The civil date (year, month, day of the month) of a day number. *)
Definition civilFromDays (z : Z) : Z * Z * Z :=
  let z := z + 719468 in
  let era := z / 146097 in
  let doe := z - era * 146097 in
  let yoe := (doe - doe / 1460 + doe / 36524 - doe / 146096) / 365 in
  let doy := doe - (365 * yoe + yoe / 4 - yoe / 100) in
  let mp := (5 * doy + 2) / 153 in
  let d := doy - (153 * mp + 2) / 5 + 1 in
  let m := if mp <? 10 then mp + 3 else mp - 9 in
  let y := yoe + era * 400 in
  (if m <=? 2 then y + 1 else y, m, d).

(** [getFullYear()], [getMonth() + 1] and [getDate()] of [new Date()]. *)
Definition localCivil (E : Env) : Z * Z * Z := civilFromDays (localDay E (now E)).

(** [s.padStart(2, '0')] *)
Definition padStart2 (s : string) : string :=
  match s with
  | EmptyString => "00"
  | String _ EmptyString => "0" ++ s
  | _ => s
  end.

End JSDate.

Import JSDate.

(** ** Form validation helpers *)

Definition emailRegex : Regex.regex :=
  let notSpaceAt :=
    Regex.Class (fun c => negb (isWhiteSpace c) && negb (Ascii.eqb c "@")) in
  Regex.Cat (Regex.Plus notSpaceAt)
    (Regex.Cat (Regex.Chr "@")
       (Regex.Cat (Regex.Plus notSpaceAt)
          (Regex.Cat (Regex.Chr ".")
             (Regex.Alt (Regex.WordI "com") (Regex.WordI "edu"))))).

Definition isValidEmail (email : string) : bool :=
  if falsy email then false
  else Regex.matches emailRegex (trim email).

Definition isValidAge (age : string) : bool :=
  if falsy age then false
  else
    match parseInt10 age with
    | None => false
    | Some ageNum => (5 <=? ageNum) && (ageNum <=? 120)
    end.

Definition isValidPhone (phone : string) : bool :=
  if falsy phone then false
  else
    let digits := stripNonDigits phone in
    (String.length digits =? 11)%nat.

(** Today's date in the form [YYYY-MM-DD], in local time. *)
Definition getTodayDate (E : Env) : string :=
  let '(year, month, day) := localCivil E in
  numberToString year ++ "-" ++ padStart2 (numberToString month) ++ "-"
  ++ padStart2 (numberToString day).

Definition isDateNotInPast (E : Env) (dateString : string) : bool :=
  if falsy dateString then false
  else
    let inputDate := newDate dateString in
    let today := Some (now E) in
    let today := setHoursZero E today in
    let inputDate := setHoursZero E inputDate in
    geDate inputDate today.

Definition isEndDateAfterStartDate (startDate endDate : string) : bool :=
  if falsy startDate || falsy endDate then false
  else
    let start := newDate startDate in
    let end_ := newDate endDate in
    gtDate end_ start.

(** ** JSON

    [JSON.parse] on the full JSON grammar and [JSON.stringify] on the
    values the program serializes (arrays of records of numbers and
    strings).  A parsed string is a list of code units, since a [\u]
    escape can denote any of them; a parsed number is kept exactly, as
    [m * 10 ^ e]. *)

Module JSON.

#[warnings="-register-all"] Inductive json : Type :=
| JNull : json
| JBool : bool -> json
| JNumber : Z -> Z -> json
| JString : list N -> json
| JArray : list json -> json
| JObject : list (list N * json) -> json.

Definition dquote : ascii := "034"%char.
Definition backslash : ascii := "092"%char.

Definition units (s : string) : list N := map N_of_ascii (list_ascii_of_string s).

Fixpoint ofUnits (l : list N) : option string :=
  match l with
  | [] => Some EmptyString
  | n :: r =>
      if (n <? 256)%N then
        match ofUnits r with
        | Some s => Some (String (ascii_of_N n) s)
        | None => None
        end
      else None
  end.

(** *** Serialization *)

Definition hexDigit (n : nat) : ascii :=
  if (n <? 10)%nat then ascii_of_nat (48 + n) else ascii_of_nat (87 + n).

(** One code unit inside a quoted JSON string (QuoteJSONString). *)
Definition quoteChar (c : ascii) : string :=
  let n := nat_of_ascii c in
  if (n =? 8)%nat then "\b"
  else if (n =? 9)%nat then "\t"
  else if (n =? 10)%nat then "\n"
  else if (n =? 12)%nat then "\f"
  else if (n =? 13)%nat then "\r"
  else if (n =? 34)%nat then String backslash (String dquote EmptyString)
  else if (n =? 92)%nat then "\\"
  else if (n <? 32)%nat then
    "\u00" ++ String (hexDigit (n / 16)) (String (hexDigit (n mod 16)) EmptyString)
  else String c EmptyString.

Fixpoint quoteBody (s : string) : string :=
  match s with
  | EmptyString => EmptyString
  | String c r => quoteChar c ++ quoteBody r
  end.

Definition quote (s : string) : string :=
  String dquote (quoteBody s ++ String dquote EmptyString).

(** *** Parsing *)

Definition isJsonWs (c : ascii) : bool :=
  let n := nat_of_ascii c in
  ((n =? 32) || (n =? 9) || (n =? 10) || (n =? 13))%nat.

Fixpoint skipWs (s : string) : string :=
  match s with
  | String c r => if isJsonWs c then skipWs r else s
  | EmptyString => EmptyString
  end.

Definition hexVal (c : ascii) : option N :=
  let n := nat_of_ascii c in
  if ((48 <=? n) && (n <=? 57))%nat then Some (N.of_nat (n - 48))
  else if ((97 <=? n) && (n <=? 102))%nat then Some (N.of_nat (n - 87))
  else if ((65 <=? n) && (n <=? 70))%nat then Some (N.of_nat (n - 55))
  else None.

Definition hex4 (a b c d : ascii) : option N :=
  match hexVal a, hexVal b, hexVal c, hexVal d with
  | Some x, Some y, Some z, Some w => Some (((x * 16 + y) * 16 + z) * 16 + w)%N
  | _, _, _, _ => None
  end.

(** The single-character escapes. *)
Definition escapeVal (e : ascii) : option N :=
  let n := nat_of_ascii e in
  if (n =? 34)%nat then Some 34%N
  else if (n =? 92)%nat then Some 92%N
  else if (n =? 47)%nat then Some 47%N
  else if (n =? 98)%nat then Some 8%N
  else if (n =? 102)%nat then Some 12%N
  else if (n =? 110)%nat then Some 10%N
  else if (n =? 114)%nat then Some 13%N
  else if (n =? 116)%nat then Some 9%N
  else None.

Definition consUnit (n : N) (r : option (list N * string)) : option (list N * string) :=
  match r with
  | Some (l, rest) => Some (n :: l, rest)
  | None => None
  end.

(** The characters of a string after its opening quote, up to and
    including the closing quote. *)
Fixpoint parseStringBody (s : string) : option (list N * string) :=
  match s with
  | EmptyString => None
  | String c r =>
      if Ascii.eqb c dquote then Some ([], r)
      else if Ascii.eqb c backslash then
        match r with
        | String e r1 =>
            if Ascii.eqb e "u" then
              match r1 with
              | String h1 (String h2 (String h3 (String h4 r2))) =>
                  match hex4 h1 h2 h3 h4 with
                  | Some n => consUnit n (parseStringBody r2)
                  | None => None
                  end
              | _ => None
              end
            else
              match escapeVal e with
              | Some n => consUnit n (parseStringBody r1)
              | None => None
              end
        | EmptyString => None
        end
      else if (nat_of_ascii c <? 32)%nat then None
      else consUnit (N_of_ascii c) (parseStringBody r)
  end.

(** At least one digit. *)
Definition digits1 (acc : Z) (s : string) : option (Z * nat * string) :=
  match readDigits acc 0 s with
  | (_, O, _) => None
  | r => Some r
  end.

(** int: a lone zero, or digits that start with 1-9. *)
Definition parseInt_ (s : string) : option (Z * string) :=
  match s with
  | String c r =>
      if Ascii.eqb c "0" then Some (0, r)
      else match digits1 0 s with
           | Some (v, _, rest) => Some (v, rest)
           | None => None
           end
  | EmptyString => None
  end.

(** frac: the mantissa grows by the fraction digits and the exponent
    drops by their number. *)
Definition parseFrac (m : Z) (s : string) : option (Z * Z * string) :=
  match s with
  | String c r =>
      if Ascii.eqb c "." then
        match digits1 m r with
        | Some (m', k, rest) => Some (m', - Z.of_nat k, rest)
        | None => None
        end
      else Some (m, 0, s)
  | EmptyString => Some (m, 0, s)
  end.

Definition parseExp (s : string) : option (Z * string) :=
  match s with
  | String c r =>
      if Ascii.eqb c "e" || Ascii.eqb c "E" then
        let '(sign, r1) :=
          match r with
          | String d r' =>
              if Ascii.eqb d "-" then (-1, r')
              else if Ascii.eqb d "+" then (1, r')
              else (1, r)
          | EmptyString => (1, r)
          end in
        match digits1 0 r1 with
        | Some (v, _, rest) => Some (sign * v, rest)
        | None => None
        end
      else Some (0, s)
  | EmptyString => Some (0, s)
  end.

Definition parseNumber (s : string) : option (json * string) :=
  let '(sign, s1) :=
    match s with
    | String c r => if Ascii.eqb c "-" then (-1, r) else (1, s)
    | EmptyString => (1, s)
    end in
  match parseInt_ s1 with
  | Some (i, s2) =>
      match parseFrac i s2 with
      | Some (m, e1, s3) =>
          match parseExp s3 with
          | Some (e2, s4) => Some (JNumber (sign * m) (e1 + e2), s4)
          | None => None
          end
      | None => None
      end
  | None => None
  end.

(** [w] at the head of [s]: the rest after it. *)
Fixpoint dropPrefix (w s : string) : option string :=
  match w, s with
  | EmptyString, _ => Some s
  | String a w', String b s' => if Ascii.eqb a b then dropPrefix w' s' else None
  | String _ _, EmptyString => None
  end.

Definition parseLiteral (w : string) (v : json) (s : string) : option (json * string) :=
  match dropPrefix w s with
  | Some rest => Some (v, rest)
  | None => None
  end.

(** Recursive descent; [fuel] bounds the depth of the calls. *)
Fixpoint parseValue (fuel : nat) (s : string) {struct fuel} : option (json * string) :=
  match fuel with
  | O => None
  | S fuel' =>
      match skipWs s with
      | EmptyString => None
      | String c r =>
          if Ascii.eqb c "[" then
            match skipWs r with
            | String c1 r1 =>
                if Ascii.eqb c1 "]" then Some (JArray [], r1)
                else
                  match parseElements fuel' r with
                  | Some (vs, rest) => Some (JArray vs, rest)
                  | None => None
                  end
            | EmptyString => None
            end
          else if Ascii.eqb c "{" then
            match skipWs r with
            | String c1 r1 =>
                if Ascii.eqb c1 "}" then Some (JObject [], r1)
                else
                  match parseMembers fuel' r with
                  | Some (ms, rest) => Some (JObject ms, rest)
                  | None => None
                  end
            | EmptyString => None
            end
          else if Ascii.eqb c dquote then
            match parseStringBody r with
            | Some (u, rest) => Some (JString u, rest)
            | None => None
            end
          else if Ascii.eqb c "t" then parseLiteral "true" (JBool true) (String c r)
          else if Ascii.eqb c "f" then parseLiteral "false" (JBool false) (String c r)
          else if Ascii.eqb c "n" then parseLiteral "null" JNull (String c r)
          else parseNumber (String c r)
      end
  end

with parseElements (fuel : nat) (s : string) {struct fuel} : option (list json * string) :=
  match fuel with
  | O => None
  | S fuel' =>
      match parseValue fuel' s with
      | Some (v, r) =>
          match skipWs r with
          | String c r1 =>
              if Ascii.eqb c "," then
                match parseElements fuel' r1 with
                | Some (vs, rest) => Some (v :: vs, rest)
                | None => None
                end
              else if Ascii.eqb c "]" then Some ([v], r1)
              else None
          | EmptyString => None
          end
      | None => None
      end
  end

with parseMembers (fuel : nat) (s : string) {struct fuel}
  : option (list (list N * json) * string) :=
  match fuel with
  | O => None
  | S fuel' =>
      match skipWs s with
      | String q r =>
          if Ascii.eqb q dquote then
            match parseStringBody r with
            | Some (k, r1) =>
                match skipWs r1 with
                | String c r2 =>
                    if Ascii.eqb c ":" then
                      match parseValue fuel' r2 with
                      | Some (v, r3) =>
                          match skipWs r3 with
                          | String c3 r4 =>
                              if Ascii.eqb c3 "," then
                                match parseMembers fuel' r4 with
                                | Some (ms, rest) => Some ((k, v) :: ms, rest)
                                | None => None
                                end
                              else if Ascii.eqb c3 "}" then Some ([(k, v)], r4)
                              else None
                          | EmptyString => None
                          end
                      | None => None
                      end
                    else None
                | EmptyString => None
                end
            | None => None
            end
          else None
      | EmptyString => None
      end
  end.

(** [JSON.parse(s)]; [None] stands for the SyntaxError it throws.  No call
    chain is deeper than twice the length of the text. *)
Definition parse (s : string) : option json :=
  match parseValue (2 * String.length s + 2) s with
  | Some (v, rest) =>
      match skipWs rest with
      | EmptyString => Some v
      | String _ _ => None
      end
  | None => None
  end.

(** A parse that succeeds with some fuel consumes at least one character
    and succeeds, with the same result, with any fuel that is at least
    twice the number of characters consumed. *)
Definition fuelEnough {R : Type} (p : nat -> string -> option (R * string)) (n : nat) : Prop :=
  forall s v r,
    p n s = Some (v, r) ->
    (String.length r < String.length s)%nat /\
    forall m, (2 * (String.length s - String.length r) <= m)%nat -> p m s = Some (v, r).

End JSON.

(** ** Client records and their persistence *)

Record Client : Type := mkClient {
  id : Z;               (* Date.now() at creation *)
  fullName : string;
  age : string;
  gender : string;
  email : string;
  phone : string;
  goal : string;
  startDate : string;
  endDate : string
}.

(** [JSON.stringify] of a client object: the properties in insertion
    order, which is the order of the object literal in the add branch (the
    spread in the update branch keeps it). *)
Definition stringifyClient (c : Client) : string :=
  "{" ++ JSON.quote "id" ++ ":" ++ numberToString (id c) ++
  "," ++ JSON.quote "fullName" ++ ":" ++ JSON.quote (fullName c) ++
  "," ++ JSON.quote "age" ++ ":" ++ JSON.quote (age c) ++
  "," ++ JSON.quote "gender" ++ ":" ++ JSON.quote (gender c) ++
  "," ++ JSON.quote "email" ++ ":" ++ JSON.quote (email c) ++
  "," ++ JSON.quote "phone" ++ ":" ++ JSON.quote (phone c) ++
  "," ++ JSON.quote "goal" ++ ":" ++ JSON.quote (goal c) ++
  "," ++ JSON.quote "startDate" ++ ":" ++ JSON.quote (startDate c) ++
  "," ++ JSON.quote "endDate" ++ ":" ++ JSON.quote (endDate c) ++ "}".

Fixpoint stringifyElements (l : list Client) : string :=
  match l with
  | [] => EmptyString
  | [c] => stringifyClient c
  | c :: r => stringifyClient c ++ "," ++ stringifyElements r
  end.

(** [JSON.stringify(clients)] *)
Definition stringifyClients (l : list Client) : string :=
  "[" ++ stringifyElements l ++ "]".

(** The value that [JSON.parse] builds for a client object and for the
    array of them. *)
Definition jsonOfClient (c : Client) : JSON.json :=
  JSON.JObject
    [ (JSON.units "id", JSON.JNumber (id c) 0);
      (JSON.units "fullName", JSON.JString (JSON.units (fullName c)));
      (JSON.units "age", JSON.JString (JSON.units (age c)));
      (JSON.units "gender", JSON.JString (JSON.units (gender c)));
      (JSON.units "email", JSON.JString (JSON.units (email c)));
      (JSON.units "phone", JSON.JString (JSON.units (phone c)));
      (JSON.units "goal", JSON.JString (JSON.units (goal c)));
      (JSON.units "startDate", JSON.JString (JSON.units (startDate c)));
      (JSON.units "endDate", JSON.JString (JSON.units (endDate c))) ].

Definition jsonOfClients (l : list Client) : JSON.json :=
  JSON.JArray (map jsonOfClient l).

(** Property lookup in a parsed object; of two members with one key the
    later one counts. *)
Fixpoint getProp (k : list N) (ms : list (list N * JSON.json)) : option JSON.json :=
  match ms with
  | [] => None
  | (k', v) :: r =>
      match getProp k r with
      | Some v' => Some v'
      | None => if list_eq_dec N.eq_dec k k' then Some v else None
      end
  end.

Definition getString (k : string) (ms : list (list N * JSON.json)) : option string :=
  match getProp (JSON.units k) ms with
  | Some (JSON.JString u) => JSON.ofUnits u
  | _ => None
  end.

Definition getInteger (k : string) (ms : list (list N * JSON.json)) : option Z :=
  match getProp (JSON.units k) ms with
  | Some (JSON.JNumber m e) => if 0 <=? e then Some (m * 10 ^ e) else None
  | _ => None
  end.

(** Reading a parsed value as a client record: an object with exactly the
    nine properties, in any order. *)
Definition clientOfJson (v : JSON.json) : option Client :=
  match v with
  | JSON.JObject ms =>
      match getInteger "id" ms, getString "fullName" ms, getString "age" ms,
            getString "gender" ms, getString "email" ms, getString "phone" ms,
            getString "goal" ms, getString "startDate" ms, getString "endDate" ms with
      | Some i, Some n, Some a, Some g, Some e, Some p, Some go, Some sd, Some ed =>
          if (List.length ms =? 9)%nat
          then Some (mkClient i n a g e p go sd ed) else None
      | _, _, _, _, _, _, _, _, _ => None
      end
  | _ => None
  end.

Fixpoint clientsOfJsonList (l : list JSON.json) : option (list Client) :=
  match l with
  | [] => Some []
  | v :: r =>
      match clientOfJson v, clientsOfJsonList r with
      | Some c, Some cs => Some (c :: cs)
      | _, _ => None
      end
  end.

Definition clientsOfJson (v : JSON.json) : option (list Client) :=
  match v with
  | JSON.JArray l => clientsOfJsonList l
  | _ => None
  end.

(** User-visible effects, in the order they happen. *)
Inductive Effect : Type :=
| Alert : string -> Effect
| Confirm : string -> Effect
| ConsoleLog : string -> Effect
| ConsoleWarn : string -> Effect
| ConsoleError : string -> Effect
| RenderTable : list Client -> string -> Effect   (* rows and count text *)
| ShowDetails : Client -> Effect
| LoadExercises : Effect
| SetHash : string -> Effect.

(** The item stored under [STORAGE_KEY]; [None] when there is none. *)
Definition Storage : Type := option string.

(** [loadClients()]: the value returned and what was logged. *)
Definition loadClients (st : Storage) : JSON.json * list Effect :=
  match st with
  | None => (JSON.JArray [], [])
  | Some stored =>
      if falsy stored then (JSON.JArray [], [])
      else
        match JSON.parse stored with
        | Some v => (v, [])
        | None => (JSON.JArray [], [ConsoleError "Could not parse stored clients"])
        end
  end.

(** [saveClients(clients)] *)
Definition saveClients (clients : list Client) (st : Storage) : Storage :=
  Some (stringifyClients clients).

(** ** The form and the application state *)

Record Form : Type := mkForm {
  fFullName : string;
  fAge : string;
  fGender : string;
  fEmail : string;
  fPhone : string;
  fGoal : string;       (* the goal dropdown *)
  fGoalFree : string;   (* the free-text goal *)
  fStartDate : string;
  fEndDate : string
}.

Definition emptyForm : Form :=
  mkForm EmptyString EmptyString EmptyString EmptyString EmptyString
         EmptyString EmptyString EmptyString EmptyString.

Record App : Type := mkApp {
  clients : list Client;
  editingId : option Z;          (* null = adding, not editing *)
  currentViewedId : option Z;
  storage : Storage;
  form : Form;
  searchInput : string;
  effects : list Effect
}.

Definition emit (e : Effect) (s : App) : App :=
  mkApp (clients s) (editingId s) (currentViewedId s) (storage s) (form s)
        (searchInput s) (effects s ++ [e]).

Definition setClients (l : list Client) (s : App) : App :=
  mkApp l (editingId s) (currentViewedId s) (storage s) (form s)
        (searchInput s) (effects s).

Definition setEditingId (e : option Z) (s : App) : App :=
  mkApp (clients s) e (currentViewedId s) (storage s) (form s)
        (searchInput s) (effects s).

Definition setCurrentViewedId (v : option Z) (s : App) : App :=
  mkApp (clients s) (editingId s) v (storage s) (form s)
        (searchInput s) (effects s).

Definition setStorage (st : Storage) (s : App) : App :=
  mkApp (clients s) (editingId s) (currentViewedId s) st (form s)
        (searchInput s) (effects s).

Definition setForm (f : Form) (s : App) : App :=
  mkApp (clients s) (editingId s) (currentViewedId s) (storage s) f
        (searchInput s) (effects s).

Definition setSearchInput (q : string) (s : App) : App :=
  mkApp (clients s) (editingId s) (currentViewedId s) (storage s) (form s)
        q (effects s).

(** The text that [updateClientCount] shows. *)
Definition clientCountText (count : nat) : string :=
  match count with
  | O => " (no clients to show)"
  | S O => " (1 client shown)"
  | _ => " (" ++ numberToString (Z.of_nat count) ++ " clients shown)"
  end.

Definition renderClientTable (rows : list Client) (s : App) : App :=
  emit (RenderTable rows (clientCountText (List.length rows))) s.

Definition fillFormFromClient (c : Client) (s : App) : App :=
  setForm (mkForm (fullName c) (age c) (gender c) (email c) (phone c)
                  EmptyString (goal c) (startDate c) (endDate c)) s.

Definition clearForm (s : App) : App := setForm emptyForm s.

Definition enterAddMode (s : App) : App := clearForm (setEditingId None s).

Definition enterEditMode (c : Client) (s : App) : App :=
  emit (SetHash "#new") (fillFormFromClient c (setEditingId (Some (id c)) s)).

(** [clients.find(c => c.id === i)] *)
Definition findById (i : Z) (l : list Client) : option Client :=
  find (fun c => id c =? i) l.

(** [clients.findIndex(c => c.id === i)]; [None] is -1. *)
Fixpoint findIndexById (i : Z) (l : list Client) : option nat :=
  match l with
  | [] => None
  | c :: r =>
      if id c =? i then Some O
      else match findIndexById i r with
           | Some n => Some (S n)
           | None => None
           end
  end.

(** [l[n] = c]; the index comes from [findIndex], so it is inside the
    array. *)
Fixpoint setNth (n : nat) (c : Client) (l : list Client) : list Client :=
  match l, n with
  | [], _ => []
  | _ :: r, O => c :: r
  | x :: r, S n' => x :: setNth n' c r
  end.

(** The page load: [clients = loadClients()], then the first render.  A
    stored value that is not an array of client records is outside the
    typed state. *)
Definition initApp (st : Storage) : option App :=
  let '(v, logged) := loadClients st in
  match clientsOfJson v with
  | Some l =>
      Some (renderClientTable l
              (mkApp l None None st emptyForm EmptyString logged))
  | None => None
  end.

(** *** The Add Client / Save Changes button *)

Definition clickAddClient (E : Env) (s : App) : App :=
  let fullName := trim (fFullName (form s)) in
  let age := trim (fAge (form s)) in
  let gender := fGender (form s) in
  let email := trim (fEmail (form s)) in
  let phone := trim (fPhone (form s)) in
  let goal := trim (fGoal (form s)) in
  let goalFree := trim (fGoalFree (form s)) in
  let startDate := fStartDate (form s) in
  let endDate := fEndDate (form s) in
  let finalGoal := or_else goal goalFree in
  if falsy fullName || falsy email || falsy phone || falsy finalGoal ||
     falsy startDate || falsy endDate then
    emit (Alert "Please fill in all required fields.") s
  else if negb (isValidEmail email) then
    emit (Alert "Please enter a valid email address ending in .com or .edu") s
  else if truthy age && negb (isValidAge age) then
    emit (Alert "Age must be between 5 and 120 years old.") s
  else if negb (isValidPhone phone) then
    emit (Alert "Phone number must be exactly 11 digits.") s
  else if negb (isDateNotInPast E startDate) then
    emit (Alert "Membership Start Date cannot be in the past. Please select today or a future date.") s
  else if negb (isEndDateAfterStartDate startDate endDate) then
    emit (Alert "Membership End Date must be after the Start Date.") s
  else
    let wasEditing := match editingId s with Some _ => true | None => false end in
    let s1 :=
      match editingId s with
      | None =>
          let client :=
            mkClient (now E) fullName age gender email phone finalGoal
                     startDate endDate in
          emit (Alert ("New client saved: " ++ fullName))
               (setClients (clients s ++ [client]) s)
      | Some eid =>
          let s' :=
            match findIndexById eid (clients s) with
            | Some index =>
                match nth_error (clients s) index with
                | Some old =>
                    let updated :=
                      mkClient (id old) fullName age gender email phone
                               finalGoal startDate endDate in
                    emit (Alert ("Client updated: " ++ fullName))
                         (setClients (setNth index updated (clients s)) s)
                | None => s
                end
            | None => s
            end in
          enterAddMode s'
      end in
    let s2 := setStorage (saveClients (clients s1) (storage s1)) s1 in
    let s3 := renderClientTable (clients s2) s2 in
    let s4 := clearForm s3 in
    if wasEditing then emit (SetHash "#list") s4 else s4.

(** *** Cancel Edit, and the Add New link *)

Definition clickCancelEdit (s : App) : App :=
  emit (SetHash "#list") (enterAddMode s).

Definition clickAddNew (s : App) : App := enterAddMode s.

(** *** Search *)

Definition searchMatches (query : string) (c : Client) : bool :=
  truthy (fullName c) && includes (toLowerCase (fullName c)) query.

Definition applySearch (s : App) : App :=
  let query := toLowerCase (trim (searchInput s)) in
  if falsy query then renderClientTable (clients s) s
  else
    let filtered := filter (searchMatches query) (clients s) in
    renderClientTable filtered s.

(** Escape in the search box. *)
Definition searchEscape (s : App) : App :=
  let s1 := setSearchInput EmptyString s in
  renderClientTable (clients s1) s1.

(** *** Table clicks *)

(** The delete button of the row with [data-id] [idToDelete]; [ok] is the
    answer to the confirmation, asked only when the record is found. *)
Definition clickDelete (idToDelete : Z) (ok : bool) (s : App) : App :=
  match findById idToDelete (clients s) with
  | None => s
  | Some clientToDelete =>
      let s1 :=
        emit (Confirm ("Delete client " ++ String JSON.dquote (fullName clientToDelete)
                         ++ String JSON.dquote "?")) s in
      if negb ok then s1
      else
        let s2 :=
          setClients (filter (fun c => negb (id c =? idToDelete)) (clients s1)) s1 in
        let s3 := setStorage (saveClients (clients s2) (storage s2)) s2 in
        renderClientTable (clients s3) s3
  end.

Definition clickEdit (idToEdit : Z) (s : App) : App :=
  match findById idToEdit (clients s) with
  | None => emit (ConsoleWarn "No client found for id") s
  | Some clientToEdit => enterEditMode clientToEdit s
  end.

Definition clickView (idToView : Z) (s : App) : App :=
  match findById idToView (clients s) with
  | None => emit (ConsoleWarn "No client found for id") s
  | Some clientToView =>
      let s1 := setCurrentViewedId (Some idToView) s in
      let s2 := emit (ShowDetails clientToView) s1 in
      let s3 := emit LoadExercises s2 in
      emit (SetHash "#client-view") s3
  end.

(** Edit This Client on the detail page. *)
Definition clickEditFromView (s : App) : App :=
  match currentViewedId s with
  | None => emit (Alert "No client selected to edit.") s
  | Some v =>
      match findById v (clients s) with
      | None => emit (Alert "Could not find this client to edit.") s
      | Some clientToEdit => enterEditMode clientToEdit s
      end
  end.

(** *** The validation rules, in the order the specification lists them

    Each rule is the check the handler makes, on the values it has read. *)

Inductive Rule : Type :=
| RequiredFields | EmailFormat | AgeRange | PhoneFormat | StartDateCheck | EndDateCheck.

Definition ruleOrder : list Rule :=
  [RequiredFields; EmailFormat; AgeRange; PhoneFormat; StartDateCheck; EndDateCheck].

Definition ruleMessage (r : Rule) : string :=
  match r with
  | RequiredFields => "Please fill in all required fields."
  | EmailFormat => "Please enter a valid email address ending in .com or .edu"
  | AgeRange => "Age must be between 5 and 120 years old."
  | PhoneFormat => "Phone number must be exactly 11 digits."
  | StartDateCheck =>
      "Membership Start Date cannot be in the past. Please select today or a future date."
  | EndDateCheck => "Membership End Date must be after the Start Date."
  end.

(** The goal that a submission carries: [goal || goalFree]. *)
Definition finalGoalOf (f : Form) : string :=
  or_else (trim (fGoal f)) (trim (fGoalFree f)).

Definition violates (E : Env) (f : Form) (r : Rule) : bool :=
  match r with
  | RequiredFields =>
      falsy (trim (fFullName f)) || falsy (trim (fEmail f)) ||
      falsy (trim (fPhone f)) || falsy (finalGoalOf f) ||
      falsy (fStartDate f) || falsy (fEndDate f)
  | EmailFormat => negb (isValidEmail (trim (fEmail f)))
  | AgeRange => truthy (trim (fAge f)) && negb (isValidAge (trim (fAge f)))
  | PhoneFormat => negb (isValidPhone (trim (fPhone f)))
  | StartDateCheck => negb (isDateNotInPast E (fStartDate f))
  | EndDateCheck => negb (isEndDateAfterStartDate (fStartDate f) (fEndDate f))
  end.

(** The first rule of [ruleOrder] that the form violates. *)
Definition firstViolated (E : Env) (f : Form) : option Rule :=
  find (violates E f) ruleOrder.

(** A valid submission violates no rule. *)
Definition validSubmission (E : Env) (f : Form) : Prop :=
  firstViolated E f = None.

(** The record that a submission describes, under a given id. *)
Definition clientOfForm (i : Z) (f : Form) : Client :=
  mkClient i (trim (fFullName f)) (trim (fAge f)) (fGender f)
           (trim (fEmail f)) (trim (fPhone f)) (finalGoalOf f)
           (fStartDate f) (fEndDate f).

(** ** Next-session exercises

    The part of [loadNextSessionExercises] that follows the fetch: the
    filter on English translations, the random selection and the names
    put on the page. *)

Module Exercises.

Record Translation : Type := mkTranslation {
  language : Z;
  name : string          (* a missing name is the empty string *)
}.

Record Exercise : Type := mkExercise {
  exerciseId : Z;
  translations : option (list Translation)   (* [None]: absent or not an array *)
}.

(** [t.language === 2 && t.name] *)
Definition isEnglishNamed (t : Translation) : bool :=
  (language t =? 2) && truthy (name t).

(** The predicate of [results.filter] that builds [exercisesWithEnglish]. *)
Definition withEnglish (e : Exercise) : bool :=
  match translations e with
  | Some ts => existsb isEnglishNamed ts
  | None => false
  end.

Definition exercisesWithEnglish (results : list Exercise) : list Exercise :=
  filter withEnglish results.

(** The check made on the drawn exercise inside the loop. *)
Definition hasEnglishName (e : Exercise) : bool :=
  match translations e with
  | Some ts =>
      match find isEnglishNamed ts with
      | Some englishTranslation =>
          truthy (name englishTranslation) && truthy (trim (name englishTranslation))
      | None => false
      end
  | None => false
  end.

(** The name shown for a selected exercise, if any. *)
Definition displayName (e : Exercise) : option string :=
  match translations e with
  | Some ts =>
      match find (fun t => isEnglishNamed t &&
                           (0 <? String.length (trim (name t)))%nat) ts with
      | Some englishTranslation =>
          if truthy (name englishTranslation) then
            let exerciseName := trim (name englishTranslation) in
            if (String.length exerciseName =? 0)%nat then None else Some exerciseName
          else None
      | None => None
      end
  | None => None
  end.

Section Selection.

(** The loop, for any kind of item and any check on the drawn item.
    [random k] is the value of the [k]-th call of [Math.random()]. *)
Context {A : Type} (valid : A -> bool) (random : nat -> Q).

(** [Math.floor(Math.random() * n)] *)
Definition randomIndex (k n : nat) : Z :=
  Qfloor (random k * inject_Z (Z.of_nat n)).

(** [l[i]]; [None] is [undefined]. *)
Definition item (l : list A) (i : Z) : option A :=
  if i <? 0 then None else nth_error l (Z.to_nat i).

(** [l.splice(i, 1)] *)
Definition splice1 (i : nat) (l : list A) : list A :=
  firstn i l ++ skipn (S i) l.

(** A value together with the equation that names it. *)
Definition inspect {B : Type} (b : B) : {c : B | b = c} := exist _ b eq_refl.

(** The [while] loop.  Reading a property of [undefined] throws, which
    ends the loop with an exception: [None]. *)
Equations? selectLoop (k : nat) (selected available : list A)
  : option (list A) by wf (List.length available) lt :=
selectLoop k selected available
  with ((List.length selected <? 5)%nat && (0 <? List.length available)%nat)%bool => {
  | false => Some selected
  | true with inspect (item available (randomIndex k (List.length available))) => {
    | exist _ None _ => None
    | exist _ (Some exercise) Hitem =>
        selectLoop (S k)
          (if valid exercise then selected ++ [exercise] else selected)
          (splice1 (Z.to_nat (randomIndex k (List.length available))) available)
    }
  }.
Proof.
  unfold item in Hitem.
  destruct (randomIndex k (List.length available) <? 0); [discriminate|].
  assert (Hlt : (Z.to_nat (randomIndex k (List.length available))
                 < List.length available)%nat).
  { apply nth_error_Some. congruence. }
  unfold splice1.
  rewrite length_app, firstn_length_le, length_skipn by lia. lia.
Qed.

(** Position [p] of the array after [splice(i, 1)] was position
    [unsplice i p] before it. *)
Definition unsplice (i p : nat) : nat := if (p <? i)%nat then p else S p.

(** [picks] were drawn from [l] at the positions [ps], no position
    twice. *)
Definition drawnFrom (l : list A) (ps : list nat) (picks : list A) : Prop :=
  NoDup ps /\ Forall2 (fun p x => nth_error l p = Some x) ps picks.

End Selection.

(** [Math.random()] returns a value in the interval from 0 (included) to
    1 (excluded). *)
Definition unitInterval (r : nat -> Q) : Prop :=
  forall k, (0 <= r k)%Q /\ (r k < 1)%Q.

(** [selectedExercises] after the loop. *)
Definition selectExercises (random : nat -> Q) (results : list Exercise)
  : option (list Exercise) :=
  selectLoop hasEnglishName random 0 [] (exercisesWithEnglish results).

End Exercises.

Import Exercises.

(** ** The exercises on the page *)

(** What the page shows after [loadNextSessionExercises]: the items of
    the list and the text of the placeholder. *)
Definition ExercisesView : Type := (list string * string)%type.

(** How the request ended: [fetch] or [response.json()] rejected with an
    error, or a response arrived, with [response.ok], the status code and
    text, and [data.results] when it is an array. *)
Inductive Fetched : Type :=
| FetchRejected : string -> Fetched
| FetchResolved : bool -> string -> string -> option (list Exercise) -> Fetched.

(** The placeholder chosen in the [catch] block from [error.message]. *)
Definition errorPlaceholder (message : string) : string :=
  if includes message "Failed to fetch" || includes message "NetworkError" then
    "Unable to connect to the Wger exercise API. Please check your internet connection and try again."
  else if includes message "CORS" then
    "CORS error: Unable to access the exercise API. The API may have restrictions."
  else "Could not load exercises: " ++ message ++ ". Please try again later.".

(** The message of the TypeError raised by reading a property of
    [undefined] (the text V8 gives it). *)
Definition typeErrorMessage : string :=
  "Cannot read properties of undefined (reading 'translations')".

(** The [forEach] that fills the list: one item per selected exercise
    that has a name to show. *)
Definition listItems (selected : list Exercise) : list string :=
  flat_map (fun e => match displayName e with
                     | Some exerciseName => [exerciseName]
                     | None => []
                     end) selected.

Definition loadNextSessionExercises (random : nat -> Q) (f : Fetched) : ExercisesView :=
  match f with
  | FetchRejected message => ([], errorPlaceholder message)
  | FetchResolved ok status statusText data =>
      if negb ok then
        ([], errorPlaceholder
               ("API request failed with status: " ++ status ++ " " ++ statusText))
      else
        let results := match data with Some r => r | None => [] end in
        if (List.length results =? 0)%nat then
          ([], "No exercises found from the API at the moment.")
        else
          let withEnglishNames := exercisesWithEnglish results in
          if (List.length withEnglishNames =? 0)%nat then
            ([], "No English exercises found from the API at the moment.")
          else
            match selectLoop hasEnglishName random 0 [] withEnglishNames with
            | Some selectedExercises => (listItems selectedExercises, EmptyString)
            | None => ([], errorPlaceholder typeErrorMessage)
            end
  end.

(** ** The language of a regular expression *)

Inductive RegexLang : Regex.regex -> string -> Prop :=
| LangEps : RegexLang Regex.Eps EmptyString
| LangClass (p : ascii -> bool) (c : ascii) :
    p c = true -> RegexLang (Regex.Class p) (String c EmptyString)
| LangCat (a b : Regex.regex) (s t : string) :
    RegexLang a s -> RegexLang b t -> RegexLang (Regex.Cat a b) (s ++ t)
| LangAltL (a b : Regex.regex) (s : string) :
    RegexLang a s -> RegexLang (Regex.Alt a b) s
| LangAltR (a b : Regex.regex) (s : string) :
    RegexLang b s -> RegexLang (Regex.Alt a b) s
| LangPlusOne (a : Regex.regex) (s : string) :
    RegexLang a s -> RegexLang (Regex.Plus a) s
| LangPlusMore (a : Regex.regex) (s t : string) :
    RegexLang a s -> RegexLang (Regex.Plus a) t -> RegexLang (Regex.Plus a) (s ++ t).

(** Every code unit of the string passes the test. *)
Fixpoint allChars (p : ascii -> bool) (s : string) : bool :=
  match s with
  | EmptyString => true
  | String c r => p c && allChars p r
  end.

(** [[^\s@]] *)
Definition notSpaceAt (c : ascii) : bool :=
  negb (isWhiteSpace c) && negb (Ascii.eqb c "@").

(** The number of decimal digits in a string. *)
Fixpoint countDigits (s : string) : nat :=
  match s with
  | EmptyString => O
  | String c r => if isDigit c then S (countDigits r) else countDigits r
  end.

(** ** The events of the page *)

Inductive Event : Type :=
| TypeInForm : Form -> Event                (* the user edits the form fields *)
| TypeInSearch : string -> Event            (* the user edits the search box *)
| ClickAddClient : Env -> Event             (* Add Client / Save Changes *)
| ClickCancelEdit : Event
| ClickAddNew : Event
| SearchSubmit : Event                      (* Enter in the search box, or the Search button *)
| SearchEscape : Event
| ClickDelete : Z -> bool -> Event          (* the row's id, the answer to [confirm] *)
| ClickEdit : Z -> Event
| ClickView : Z -> Event
| ClickEditFromView : Event.

Definition handle (e : Event) (s : App) : App :=
  match e with
  | TypeInForm f => setForm f s
  | TypeInSearch q => setSearchInput q s
  | ClickAddClient E => clickAddClient E s
  | ClickCancelEdit => clickCancelEdit s
  | ClickAddNew => clickAddNew s
  | SearchSubmit => applySearch s
  | SearchEscape => searchEscape s
  | ClickDelete i ok => clickDelete i ok s
  | ClickEdit i => clickEdit i s
  | ClickView i => clickView i s
  | ClickEditFromView => clickEditFromView s
  end.

(** The state after a sequence of events. *)
Definition run (events : list Event) (s : App) : App :=
  fold_left (fun st e => handle e st) events s.

(** The collection that a reload of the page would start from. *)
Definition reloaded (s : App) : option (list Client) :=
  clientsOfJson (fst (loadClients (storage s))).

(** A record as the form lets it through: the checks of the submit
    handler that do not depend on the day, on the stored fields, which
    carry no white space around them. *)
Definition wellFormed (c : Client) : Prop :=
  trim (fullName c) = fullName c /\ truthy (fullName c) = true /\
  trim (age c) = age c /\ (truthy (age c) = true -> isValidAge (age c) = true) /\
  trim (email c) = email c /\ isValidEmail (email c) = true /\
  trim (phone c) = phone c /\ isValidPhone (phone c) = true /\
  trim (goal c) = goal c /\ truthy (goal c) = true /\
  isEndDateAfterStartDate (startDate c) (endDate c) = true.

(** ** Checking a range of integers *)

(** [f] holds on the [p] integers from [from] on. *)
Fixpoint allFrom (p : positive) (from : Z) (f : Z -> bool) : bool :=
  match p with
  | xH => f from
  | xO q => allFrom q from f && allFrom q (from + Z.pos q) f
  | xI q =>
      allFrom q from f && allFrom q (from + Z.pos q) f
      && f (from + Z.pos q + Z.pos q)
  end.

(** The steps of [civilFromDays] on the day [doe] of a cycle of 400
    years (146097 days), and what they have to give for [daysFromCivil] to
    lead back to [doe]. *)
Definition cycleDayOK (doe : Z) : bool :=
  let yoe := (doe - doe / 1460 + doe / 36524 - doe / 146096) / 365 in
  let doy := doe - (365 * yoe + yoe / 4 - yoe / 100) in
  let mp := (5 * doy + 2) / 153 in
  let d := doy - (153 * mp + 2) / 5 + 1 in
  let m := if mp <? 10 then mp + 3 else mp - 9 in
  let y := if m <=? 2 then yoe + 1 else yoe in
  (0 <=? yoe) && (yoe <=? 399) &&
  (1 <=? m) && (m <=? 12) && (1 <=? d) && (d <=? daysInMonth y m) &&
  ((if m <=? 2 then m + 9 else m - 3) =? mp) &&
  ((153 * mp + 2) / 5 + d - 1 =? doy) &&
  (yoe * 365 + yoe / 4 - yoe / 100 + doy =? doe).

(** ** Sample data *)

(** Noon UTC on 2024-05-10, seen from UTC+2. *)
Definition envCairo : Env := mkEnv 1715342400000 7200000.

(** The submission of Scenario A. *)
Definition formJane : Form :=
  mkForm "Jane Doe" EmptyString EmptyString "jane@x.com" "(555) 123-4567x1"
         "Lose weight" EmptyString "2024-05-10" "2024-05-17".

Definition appWith (l : list Client) (e : option Z) (f : Form) : App :=
  mkApp l e None (Some (stringifyClients l)) f EmptyString [].

Definition clientAli : Client :=
  mkClient 1715342400000 "Ali Hassan" "31" "male" "ali@gym.edu" "01234567890"
           "Build muscle" "2024-05-01" "2024-08-01".

Definition clientMona : Client :=
  mkClient 1715000000000 "Mona Adel" EmptyString "female" "mona@fit.com"
           "01098765432" "Run 10k" "2024-05-02" "2024-09-02".

Definition formBothGoals : Form :=
  mkForm "Jane Doe" "29" "female" "jane@x.com" "(555) 123-4567x1"
         "Lose weight" "Run a marathon" "2024-05-10" "2024-05-17".

Definition formMonaPadded : Form :=
  mkForm "  Mona Adel " "40" "female" "mona@fit.com" "01098765432"
         EmptyString "Swim" "2024-05-12" "2024-09-02".

Definition clientJoan : Client :=
  mkClient 1715000000001 "Joan Smith" "27" "female" "joan@fit.com"
           "01011122233" "Tone up" "2024-05-03" "2024-07-03".

(** 11:00 in the morning of 2024-05-10, local time, five hours west of
    UTC. *)
Definition envNewYork : Env := mkEnv 1715356800000 (-18000000).

Definition sampleExercise (i : Z) (n : string) : Exercise :=
  mkExercise i (Some [mkTranslation 1 "Kniebeuge"; mkTranslation 2 n]).

Definition sampleResults : list Exercise :=
  [sampleExercise 1 "Squat"; sampleExercise 2 "Plank"; sampleExercise 3 EmptyString;
   sampleExercise 4 "  "; sampleExercise 5 "Lunge"; sampleExercise 6 "Row";
   mkExercise 7 None; sampleExercise 8 "Curl"; sampleExercise 9 "Dip"].

(** * Properties *)

(** ** The primitives on examples *)

Example trim_ex : trim "  Jane Doe  " = "Jane Doe".
Proof. reflexivity. Qed.

Example includes_ex : includes (toLowerCase "Jane DOE") "e d" = true.
Proof. reflexivity. Qed.

Example parseInt10_ex :
  parseInt10 " 42px" = Some 42 /\ parseInt10 "-7" = Some (-7) /\
  parseInt10 "abc" = None /\ parseInt10 "5.9" = Some 5.
Proof. repeat split. Qed.

Example email_ex :
  isValidEmail "jane@x.com" = true /\ isValidEmail "JANE@X.Y.EDU" = true /\
  isValidEmail "jane@x.org" = false /\ isValidEmail "jane@.com" = false /\
  isValidEmail "ja ne@x.com" = false /\ isValidEmail "a@b@c.com" = false.
Proof. repeat split. Qed.

Example age_ex :
  isValidAge "5" = true /\ isValidAge "120" = true /\
  isValidAge "4" = false /\ isValidAge "121" = false /\ isValidAge "abc" = false.
Proof. repeat split. Qed.

Example phone_ex :
  isValidPhone "(555) 123-4567x1" = true /\ isValidPhone "5551234567" = false /\
  isValidPhone "555123456789" = false.
Proof. repeat split. Qed.

Example date_ex :
  newDate "1970-01-01" = Some 0 /\ newDate "2024-05-10" = Some 1715299200000 /\
  newDate "2024-02-30" = None /\ newDate "2000-03-01" = Some 951868800000.
Proof. repeat split. Qed.

(** ** The submit handler *)

Lemma emit_effects (e : Effect) (s : App) : effects (emit e s) = (effects s ++ [e])%list.
Proof. reflexivity. Qed.

(** One step of the handler's chain of checks is one step of the search
    through [ruleOrder]. *)
Lemma firstViolated_cases (E : Env) (f : Form) :
  firstViolated E f =
    if violates E f RequiredFields then Some RequiredFields
    else if violates E f EmailFormat then Some EmailFormat
    else if violates E f AgeRange then Some AgeRange
    else if violates E f PhoneFormat then Some PhoneFormat
    else if violates E f StartDateCheck then Some StartDateCheck
    else if violates E f EndDateCheck then Some EndDateCheck
    else None.
Proof. reflexivity. Qed.

Ltac split_rules H :=
  rewrite firstViolated_cases in H;
  repeat match type of H with
         | (if ?b then _ else _) = _ => destruct b eqn:?; try discriminate H
         end.

Ltac app_simpl :=
  unfold clickCancelEdit, clickAddNew, enterEditMode, enterAddMode, clearForm,
    fillFormFromClient, renderClientTable, saveClients, emit, setClients,
    setEditingId, setCurrentViewedId, setStorage, setForm, setSearchInput;
  cbn [clients editingId currentViewedId storage form searchInput effects].

Ltac fold_rules :=
  repeat match goal with
         | H : violates _ _ _ = _ |- _ =>
             unfold violates, finalGoalOf in H; rewrite H; clear H
         end.

(** A rejected submission only raises the alert of the first violated
    rule. *)
Lemma clickAddClient_rejected (E : Env) (s : App) (r : Rule) :
  firstViolated E (form s) = Some r ->
  clickAddClient E s = emit (Alert (ruleMessage r)) s.
Proof.
  intros H. split_rules H; injection H as <-;
    unfold clickAddClient; cbv zeta; fold_rules; reflexivity.
Qed.

(** A valid submission in Add mode. *)
Lemma clickAddClient_add (E : Env) (s : App) :
  validSubmission E (form s) ->
  editingId s = None ->
  clickAddClient E s =
    let l := (clients s ++ [clientOfForm (now E) (form s)])%list in
    mkApp l None (currentViewedId s) (Some (stringifyClients l)) emptyForm
          (searchInput s)
          (effects s ++ [Alert ("New client saved: " ++ trim (fFullName (form s)));
                         RenderTable l (clientCountText (List.length l))]).
Proof.
  unfold validSubmission. intros H Hadd. split_rules H.
  unfold clickAddClient; cbv zeta; fold_rules. rewrite Hadd.
  app_simpl. unfold clientOfForm, finalGoalOf. cbv zeta.
  f_equal; [exact Hadd | rewrite <- app_assoc; reflexivity].
Qed.

(** A valid submission in Edit mode: what happens to the array depends on
    [findIndex]; the rest does not. *)
Lemma clickAddClient_edit (E : Env) (s : App) (eid : Z) :
  validSubmission E (form s) ->
  editingId s = Some eid ->
  clickAddClient E s =
    let hit :=
      match findIndexById eid (clients s) with
      | Some index =>
          match nth_error (clients s) index with
          | Some old => Some (setNth index (clientOfForm (id old) (form s)) (clients s))
          | None => None
          end
      | None => None
      end in
    let l := match hit with Some l' => l' | None => clients s end in
    mkApp l None (currentViewedId s) (Some (stringifyClients l)) emptyForm
          (searchInput s)
          (effects s ++
             match hit with
             | Some _ => [Alert ("Client updated: " ++ trim (fFullName (form s)))]
             | None => []
             end ++
             [RenderTable l (clientCountText (List.length l)); SetHash "#list"]).
Proof.
  unfold validSubmission. intros H Hedit. split_rules H.
  unfold clickAddClient; cbv zeta; fold_rules. rewrite Hedit.
  unfold clientOfForm, finalGoalOf.
  destruct (findIndexById eid (clients s)) as [index|].
  - destruct (nth_error (clients s) index) as [old|]; app_simpl; cbv zeta;
      f_equal; cbn [app]; rewrite <- ?app_assoc; reflexivity.
  - app_simpl. cbv zeta. f_equal. cbn [app]. rewrite <- ?app_assoc. reflexivity.
Qed.

(** ** Lists: the first match *)

Lemma find_first {A : Type} (p : A -> bool) (l : list A) (x : A) :
  find p l = Some x ->
  exists before after,
    l = (before ++ x :: after)%list /\
    Forall (fun y => p y = false) before /\ p x = true.
Proof.
  induction l as [|a l IH]; cbn; [discriminate|].
  destruct (p a) eqn:Ha.
  - intros [= ->]. exists [], l. repeat split; [constructor | exact Ha].
  - intros H. destruct (IH H) as (b & c & -> & Hb & Hx).
    exists (a :: b), c. repeat split; [constructor; assumption | exact Hx].
Qed.

Lemma find_exists {A : Type} (p : A -> bool) (l : list A) :
  (exists x, In x l /\ p x = true) -> exists y, find p l = Some y.
Proof.
  intros (x & Hin & Hx). destruct (find p l) as [y|] eqn:Hf; [eauto|].
  rewrite (find_none p l Hf x Hin) in Hx. discriminate.
Qed.

Lemma findIndexById_none (i : Z) (l : list Client) :
  ~ In i (map id l) -> findIndexById i l = None.
Proof.
  induction l as [|c l IH]; cbn [findIndexById map In]; [reflexivity|].
  intros H. destruct (Z.eqb_spec (id c) i) as [Hc|_]; [tauto|].
  rewrite IH; tauto.
Qed.

(** The first record with the id splits the array; [findIndex] returns the
    length of the part before it. *)
Lemma first_with_id (i : Z) (l : list Client) :
  In i (map id l) ->
  exists before old after,
    l = (before ++ old :: after)%list /\ id old = i /\
    Forall (fun c => id c <> i) before.
Proof.
  induction l as [|c l IH]; cbn [map In]; [tauto|].
  intros H. destruct (Z.eq_dec (id c) i) as [Hc|Hc].
  - exists [], c, l. repeat split; [exact Hc | constructor].
  - destruct IH as (b & o & a & -> & Ho & Hb); [tauto|].
    exists (c :: b), o, a. repeat split; [exact Ho | constructor; assumption].
Qed.

Lemma findIndexById_first (i : Z) (before after : list Client) (old : Client) :
  id old = i ->
  Forall (fun c => id c <> i) before ->
  findIndexById i (before ++ old :: after) = Some (List.length before).
Proof.
  intros Ho Hb. induction Hb as [|c b Hc _ IH]; cbn [app findIndexById].
  - rewrite (proj2 (Z.eqb_eq _ _) Ho). reflexivity.
  - rewrite (proj2 (Z.eqb_neq _ _) Hc), IH. reflexivity.
Qed.

Lemma setNth_middle (before after : list Client) (old new : Client) :
  setNth (List.length before) new (before ++ old :: after)
  = (before ++ new :: after)%list.
Proof. induction before as [|c b IH]; cbn; [reflexivity | now rewrite IH]. Qed.

Lemma nth_error_middle (before after : list Client) (old : Client) :
  nth_error (before ++ old :: after) (List.length before) = Some old.
Proof. induction before as [|c b IH]; cbn; [reflexivity | exact IH]. Qed.

Example formJane_valid : validSubmission envCairo formJane.
Proof. reflexivity. Qed.

Example scenario_A :
  let s' := clickAddClient envCairo (appWith [] None formJane) in
  clients s' =
    [mkClient 1715342400000 "Jane Doe" EmptyString EmptyString "jane@x.com"
              "(555) 123-4567x1" "Lose weight" "2024-05-10" "2024-05-17"] /\
  last (effects s') LoadExercises =
    RenderTable (clients s') " (1 client shown)".
Proof. split; reflexivity. Qed.

Example scenario_B :
  let f := mkForm "Jane Doe" EmptyString EmptyString "jane@x.org" "(555) 123-4567x1"
                  "Lose weight" EmptyString "2024-05-10" "2024-05-17" in
  let s := appWith [clientMona] None f in
  firstViolated envCairo f = Some EmailFormat /\
  clients (clickAddClient envCairo s) = clients s.
Proof. split; reflexivity. Qed.

Example scenario_C :
  let s1 := clickEdit (id clientMona) (appWith [clientMona] None emptyForm) in
  let s2 := setForm (mkForm "Mona Adel" EmptyString "female" "mona@fit.com"
                            "01098765432" EmptyString "Swim" "2024-05-02"
                            "2024-09-02") s1 in
  let s3 := clickCancelEdit s2 in
  editingId s1 = Some (id clientMona) /\
  clients s3 = [clientMona] /\ editingId s3 = None /\ storage s3 = storage s1.
Proof. repeat split. Qed.

(** A valid submission in Edit mode whose id is found: the first record
    with that id is replaced where it stands. *)
Lemma clickAddClient_edit_found (E : Env) (s : App) (eid : Z)
      (before after : list Client) (old : Client) :
  validSubmission E (form s) ->
  editingId s = Some eid ->
  clients s = (before ++ old :: after)%list ->
  id old = eid ->
  Forall (fun c => id c <> eid) before ->
  clickAddClient E s =
    let l := (before ++ clientOfForm (id old) (form s) :: after)%list in
    mkApp l None (currentViewedId s) (Some (stringifyClients l)) emptyForm
          (searchInput s)
          (effects s ++
             [Alert ("Client updated: " ++ trim (fFullName (form s)));
              RenderTable l (clientCountText (List.length l)); SetHash "#list"]).
Proof.
  intros Hv He Hl Ho Hb.
  rewrite (clickAddClient_edit E s eid Hv He), Hl.
  rewrite (findIndexById_first eid before after old Ho Hb).
  rewrite nth_error_middle, setNth_middle. reflexivity.
Qed.

(** A valid submission in Edit mode whose id is not found. *)
Lemma clickAddClient_edit_missing (E : Env) (s : App) (eid : Z) :
  validSubmission E (form s) ->
  editingId s = Some eid ->
  ~ In eid (map id (clients s)) ->
  clickAddClient E s =
    mkApp (clients s) None (currentViewedId s)
          (Some (stringifyClients (clients s))) emptyForm (searchInput s)
          (effects s ++
             [RenderTable (clients s) (clientCountText (List.length (clients s)));
              SetHash "#list"]).
Proof.
  intros Hv He Hn.
  rewrite (clickAddClient_edit E s eid Hv He).
  rewrite (findIndexById_none eid (clients s) Hn). reflexivity.
Qed.

(** ** Goal: dropdown and free text *)

(** C1, as stated, fails: with both goal inputs filled in, a valid
    submission stores the dropdown value, not the free text. *)
Lemma free_text_goal_does_not_win :
  let s := appWith [] None formBothGoals in
  validSubmission envCairo (form s) /\
  truthy (trim (fGoal (form s))) = true /\
  truthy (trim (fGoalFree (form s))) = true /\
  map goal (clients (clickAddClient envCairo s)) = ["Lose weight"] /\
  trim (fGoalFree (form s)) = "Run a marathon".
Proof. repeat split. Qed.

Lemma or_else_left (a b : string) : truthy a = true -> or_else a b = a.
Proof. unfold or_else. now intros ->. Qed.

(** C1, amended: for every valid submission in which both the goal
    dropdown value and the free-text goal are non-empty after trimming, the
    goal stored in the resulting record (appended in Add mode, put in the
    place of the edited record in Edit mode) equals the trimmed dropdown
    value: the dropdown wins and the free text is overridden. *)
Theorem dropdown_goal_wins (E : Env) (s : App) :
  validSubmission E (form s) ->
  truthy (trim (fGoal (form s))) = true ->
  truthy (trim (fGoalFree (form s))) = true ->
  let s' := clickAddClient E s in
  (editingId s = None ->
   exists c, clients s' = (clients s ++ [c])%list /\
             goal c = trim (fGoal (form s))) /\
  (forall eid before old after,
   editingId s = Some eid ->
   clients s = (before ++ old :: after)%list ->
   id old = eid ->
   Forall (fun c => id c <> eid) before ->
   exists c, clients s' = (before ++ c :: after)%list /\
             goal c = trim (fGoal (form s))).
Proof.
  intros Hv Hg Hf. cbv zeta. split.
  - intros Ha. rewrite (clickAddClient_add E s Hv Ha).
    eexists. split; [reflexivity|].
    cbn. unfold finalGoalOf. apply or_else_left, Hg.
  - intros eid before old after He Hl Ho Hb.
    rewrite (clickAddClient_edit_found E s eid before after old Hv He Hl Ho Hb).
    eexists. split; [reflexivity|].
    cbn. unfold finalGoalOf. apply or_else_left, Hg.
Qed.

Lemma dropdown_goal_wins_witness :
  let s := appWith [] None formBothGoals in
  validSubmission envCairo (form s) /\
  truthy (trim (fGoal (form s))) = true /\
  truthy (trim (fGoalFree (form s))) = true /\
  (editingId s = None ->
   exists c, clients (clickAddClient envCairo s) = (clients s ++ [c])%list /\
             goal c = trim (fGoal (form s))).
Proof.
  cbv zeta. split; [reflexivity|]. split; [reflexivity|]. split; [reflexivity|].
  apply (dropdown_goal_wins envCairo (appWith [] None formBothGoals));
    reflexivity.
Defined.

(** ** Add mode *)

(** C2, as stated, fails on the id: the new record takes [Date.now()] as
    its id, and a record with that very id can already be in the
    collection. *)
Lemma add_mode_id_can_repeat :
  let s := appWith [clientAli] None formJane in
  validSubmission envCairo (form s) /\
  editingId s = None /\
  exists c, clients (clickAddClient envCairo s) = (clients s ++ [c])%list /\
            In (id c) (map id (clients s)).
Proof.
  cbv zeta. split; [reflexivity|]. split; [reflexivity|].
  eexists. split; [reflexivity|]. left. reflexivity.
Qed.

(** C2, amended: for every valid submission in Add mode the size of the
    repository grows by exactly 1, the new record is appended at the end,
    and its id is the current time stamp; that id is unique among the ids
    already present whenever no record carries that time stamp as id, and
    then ids that were pairwise distinct stay so. *)
Theorem add_mode_appends_one (E : Env) (s : App) :
  validSubmission E (form s) ->
  editingId s = None ->
  let s' := clickAddClient E s in
  let c := clientOfForm (now E) (form s) in
  clients s' = (clients s ++ [c])%list /\
  List.length (clients s') = S (List.length (clients s)) /\
  id c = now E /\
  (~ In (now E) (map id (clients s)) ->
   ~ In (id c) (map id (clients s)) /\
   (NoDup (map id (clients s)) -> NoDup (map id (clients s')))).
Proof.
  intros Hv Ha. cbv zeta. rewrite (clickAddClient_add E s Hv Ha).
  cbn [clients]. split; [reflexivity|]. split.
  - rewrite length_app. cbn. lia.
  - split; [reflexivity|]. intros Hn. split; [exact Hn|].
    intros Hd. rewrite map_app. cbn [map id clientOfForm].
    apply NoDup_app; [exact Hd | constructor; [intros [] | constructor] |].
    intros x Hx [<-|[]]. exact (Hn Hx).
Qed.

Lemma add_mode_appends_one_witness :
  let s := appWith [clientMona] None formJane in
  let s' := clickAddClient envCairo s in
  validSubmission envCairo (form s) /\
  editingId s = None /\
  clients s' = [clientMona; clientOfForm (now envCairo) formJane] /\
  List.length (clients s') = 2%nat.
Proof.
  cbv zeta. split; [reflexivity|]. split; [reflexivity|].
  pose proof (add_mode_appends_one envCairo (appWith [clientMona] None formJane)
                eq_refl eq_refl) as H.
  cbv zeta in H. destruct H as (H1 & H2 & _). split; [exact H1 | exact H2].
Defined.

(** ** Edit mode *)

(** C3, as stated, fails on the field values: the record keeps its id and
    its place, but a text field is stored without the white space that
    surrounded the submitted value. *)
Lemma edit_mode_stores_trimmed_value :
  let s := appWith [clientAli; clientMona] (Some (id clientMona)) formMonaPadded in
  validSubmission envCairo (form s) /\
  exists c, clients (clickAddClient envCairo s) = [clientAli; c] /\
            id c = id clientMona /\
            fullName c = "Mona Adel" /\
            fullName c <> fFullName (form s).
Proof.
  cbv zeta. split; [reflexivity|].
  eexists. split; [reflexivity|]. repeat split. discriminate.
Qed.

(** C3, amended: for every valid submission in Edit mode whose editingId
    matches a record, the size of the repository is unchanged, the edited
    record (the first one with that id) keeps its id and its position,
    every other field of it holds the submitted value as the handler reads
    it (full name, age, email, phone and goal with surrounding white space
    trimmed, the goal being the dropdown value unless that is empty and
    then the free text; gender and the two dates as submitted), all other
    records are unchanged, and the controller is back in Add mode. *)
Theorem edit_mode_replaces_in_place (E : Env) (s : App) (eid : Z) :
  validSubmission E (form s) ->
  editingId s = Some eid ->
  In eid (map id (clients s)) ->
  let s' := clickAddClient E s in
  exists before old after,
    clients s = (before ++ old :: after)%list /\
    id old = eid /\
    Forall (fun c => id c <> eid) before /\
    clients s' =
      (before ++
       mkClient (id old) (trim (fFullName (form s))) (trim (fAge (form s)))
                (fGender (form s)) (trim (fEmail (form s)))
                (trim (fPhone (form s)))
                (or_else (trim (fGoal (form s))) (trim (fGoalFree (form s))))
                (fStartDate (form s)) (fEndDate (form s))
       :: after)%list /\
    List.length (clients s') = List.length (clients s) /\
    editingId s' = None.
Proof.
  intros Hv He Hin. cbv zeta.
  destruct (first_with_id eid (clients s) Hin) as (before & old & after & Hl & Ho & Hb).
  exists before, old, after.
  rewrite (clickAddClient_edit_found E s eid before after old Hv He Hl Ho Hb).
  cbn [clients editingId]. repeat split; try assumption.
  rewrite Hl, !length_app. reflexivity.
Qed.

Lemma edit_mode_replaces_in_place_witness :
  let s := appWith [clientAli; clientMona] (Some (id clientMona)) formMonaPadded in
  validSubmission envCairo (form s) /\
  editingId s = Some (id clientMona) /\
  In (id clientMona) (map id (clients s)) /\
  List.length (clients (clickAddClient envCairo s)) = 2%nat /\
  editingId (clickAddClient envCairo s) = None.
Proof.
  cbv zeta. split; [reflexivity|]. split; [reflexivity|].
  split; [right; left; reflexivity|].
  destruct (edit_mode_replaces_in_place envCairo
              (appWith [clientAli; clientMona] (Some (id clientMona)) formMonaPadded)
              (id clientMona) eq_refl eq_refl (or_intror (or_introl eq_refl)))
    as (before & old & after & _ & _ & _ & _ & Hlen & Hmode).
  split; [exact Hlen | exact Hmode].
Defined.

(** C10: for every valid submission in Edit mode whose editingId matches
    no record, the collection is left unchanged, it is still serialized
    again to the store, the form is cleared, the controller is back in Add
    mode, and nothing is reported to the user: the only effects are the
    render of the table and the jump to the list. *)
Theorem edit_mode_missing_record_is_silent (E : Env) (s : App) (eid : Z) :
  validSubmission E (form s) ->
  editingId s = Some eid ->
  ~ In eid (map id (clients s)) ->
  let s' := clickAddClient E s in
  clients s' = clients s /\
  storage s' = saveClients (clients s) (storage s) /\
  storage s' = Some (stringifyClients (clients s)) /\
  form s' = emptyForm /\
  editingId s' = None /\
  effects s' =
    (effects s ++
       [RenderTable (clients s) (clientCountText (List.length (clients s)));
        SetHash "#list"])%list.
Proof.
  intros Hv He Hn. cbv zeta.
  rewrite (clickAddClient_edit_missing E s eid Hv He Hn).
  repeat split.
Qed.

Lemma edit_mode_missing_record_is_silent_witness :
  let s := appWith [clientAli] (Some (id clientMona)) formJane in
  let s' := clickAddClient envCairo s in
  validSubmission envCairo (form s) /\
  editingId s = Some (id clientMona) /\
  ~ In (id clientMona) (map id (clients s)) /\
  clients s' = [clientAli] /\
  form s' = emptyForm /\
  editingId s' = None.
Proof.
  assert (Hn : ~ In (id clientMona) (map id [clientAli])).
  { cbn. intros [H|[]]. discriminate H. }
  cbv zeta. split; [reflexivity|]. split; [reflexivity|]. split; [exact Hn|].
  destruct (edit_mode_missing_record_is_silent envCairo
              (appWith [clientAli] (Some (id clientMona)) formJane)
              (id clientMona) eq_refl eq_refl Hn)
    as (Hc & _ & _ & Hf & Hm & _).
  repeat split; assumption.
Defined.

(** ** Rejected submissions *)

(** C4: whenever a validation rule fails on submit, the repository, the
    persistent store and the edit-mode state (and the form) are unchanged,
    and the one alert raised is that of the first violated rule in the
    fixed order: required fields, then email format, age range, phone
    format, start date, end date. *)
Theorem rejected_submission_reports_first_rule (E : Env) (s : App) :
  (exists r, In r ruleOrder /\ violates E (form s) r = true) ->
  let s' := clickAddClient E s in
  exists r before after,
    ruleOrder = (before ++ r :: after)%list /\
    Forall (fun r' => violates E (form s) r' = false) before /\
    violates E (form s) r = true /\
    clients s' = clients s /\
    storage s' = storage s /\
    editingId s' = editingId s /\
    form s' = form s /\
    effects s' = (effects s ++ [Alert (ruleMessage r)])%list.
Proof.
  intros Hex. cbv zeta.
  destruct (find_exists _ _ Hex) as (r & Hr).
  destruct (find_first _ _ _ Hr) as (before & after & Hl & Hb & Hx).
  exists r, before, after.
  rewrite (clickAddClient_rejected E s r Hr).
  repeat split; assumption.
Qed.

Lemma rejected_submission_reports_first_rule_witness :
  let f := mkForm "Jane Doe" "3" EmptyString "jane@x.org" "555"
                  "Lose weight" EmptyString "2024-05-10" "2024-05-17" in
  let s := appWith [clientMona] None f in
  let s' := clickAddClient envCairo s in
  (exists r, In r ruleOrder /\ violates envCairo (form s) r = true) /\
  firstViolated envCairo f = Some EmailFormat /\
  exists r, effects s' = [Alert (ruleMessage r)] /\
            clients s' = [clientMona] /\ editingId s' = None.
Proof.
  cbv zeta.
  assert (Hex : exists r, In r ruleOrder /\
      violates envCairo
        (mkForm "Jane Doe" "3" EmptyString "jane@x.org" "555"
                "Lose weight" EmptyString "2024-05-10" "2024-05-17") r = true).
  { exists PhoneFormat. split; [cbn; tauto | reflexivity]. }
  split; [exact Hex|]. split; [reflexivity|].
  destruct (rejected_submission_reports_first_rule envCairo
              (appWith [clientMona] None
                 (mkForm "Jane Doe" "3" EmptyString "jane@x.org" "555"
                         "Lose weight" EmptyString "2024-05-10" "2024-05-17")) Hex)
    as (r & before & after & _ & _ & _ & Hc & _ & He & _ & Hfx).
  exists r. repeat split; assumption.
Defined.

(** ** Search *)

Lemma prefix_spec (q s : string) :
  String.prefix q s = true <-> exists b, s = q ++ b.
Proof.
  revert s. induction q as [|a q IH]; intros s.
  - split; [intros _; exists s; reflexivity | intros _; destruct s; reflexivity].
  - destruct s as [|c s]; cbn.
    + split; [discriminate | intros (b & H); discriminate H].
    + destruct (ascii_dec a c) as [->|Hne].
      * rewrite IH. split; intros (b & H); exists b; [now subst | now injection H].
      * split; [discriminate | intros (b & H); injection H; congruence].
Qed.

(** [includes] is containment as a contiguous substring. *)
Lemma includes_spec (s q : string) :
  includes s q = true <-> exists a b, s = a ++ q ++ b.
Proof.
  induction s as [|c s IH]; cbn [includes].
  - rewrite orb_false_r, prefix_spec. split.
    + intros (b & H). exists EmptyString, b. exact H.
    + intros (a & b & H). destruct a; cbn in H; [eauto | discriminate].
  - rewrite orb_true_iff, prefix_spec, IH. split.
    + intros [(b & H) | (a & b & H)].
      * exists EmptyString, b. exact H.
      * exists (String c a), b. cbn. now rewrite H.
    + intros (a & b & H). destruct a as [|c' a]; cbn in H.
      * left. eauto.
      * right. injection H as _ H. eauto.
Qed.

Lemma includes_empty_subject (q : string) :
  q <> EmptyString -> includes EmptyString q = false.
Proof. destruct q; [congruence | reflexivity]. Qed.

(** For a non-empty query the guard on [fullName] changes nothing. *)
Lemma searchMatches_includes (q : string) (c : Client) :
  q <> EmptyString ->
  searchMatches q c = includes (toLowerCase (fullName c)) q.
Proof.
  intros Hq. unfold searchMatches.
  destruct (fullName c); cbn [truthy falsy negb andb toLowerCase];
    [now rewrite includes_empty_subject | reflexivity].
Qed.

Lemma falsy_spec (s : string) : falsy s = true <-> s = EmptyString.
Proof. destruct s; cbn; split; congruence. Qed.

(** C8, as stated, fails for a query with white space around it: the
    filter trims the query first, so it selects a record whose name does
    not contain the query that was typed. *)
Lemma search_trims_the_query :
  let s := setSearchInput " an" (appWith [clientJoan; clientMona] None emptyForm) in
  effects (applySearch s) = [RenderTable [clientJoan] " (1 client shown)"] /\
  includes (toLowerCase (fullName clientJoan)) (toLowerCase (searchInput s)) = false.
Proof. split; reflexivity. Qed.

(** C8, amended: for every collection and every query, the search filter
    selects exactly the records whose fullName contains the query, with
    surrounding white space trimmed, as a case-insensitive substring,
    preserving their original order, and never mutates the repository;
    applying a query that is empty after trimming (including after any
    non-empty search) renders the full unfiltered collection in original
    order. *)
Theorem search_selects_matches_of_trimmed_query (s : App) :
  let q := toLowerCase (trim (searchInput s)) in
  let s' := applySearch s in
  clients s' = clients s /\ storage s' = storage s /\
  exists rows,
    effects s' = (effects s ++ [RenderTable rows (clientCountText (List.length rows))])%list /\
    (q = EmptyString -> rows = clients s) /\
    (q <> EmptyString ->
     rows = filter (fun c => includes (toLowerCase (fullName c)) q) (clients s) /\
     forall c, In c rows <->
               In c (clients s) /\ exists a b, toLowerCase (fullName c) = a ++ q ++ b) /\
    (q = EmptyString ->
     forall earlier,
       applySearch (setSearchInput (searchInput s)
                      (applySearch (setSearchInput earlier s)))
       = renderClientTable (clients s)
           (setSearchInput (searchInput s) (applySearch (setSearchInput earlier s)))).
Proof.
  cbv zeta. unfold applySearch.
  destruct (falsy (toLowerCase (trim (searchInput s)))) eqn:Hq.
  - apply falsy_spec in Hq. repeat split.
    eexists. split; [reflexivity|]. split; [reflexivity|]. split; [congruence|].
    intros _ earlier. cbn [searchInput setSearchInput]. rewrite Hq.
    cbn [falsy]. destruct (falsy (toLowerCase (trim earlier))); reflexivity.
  - assert (Hne : toLowerCase (trim (searchInput s)) <> EmptyString).
    { intros H. rewrite H in Hq. discriminate. }
    repeat split.
    eexists. split; [reflexivity|]. split; [congruence|]. split; [|congruence].
    intros _.
    assert (Hf : filter (searchMatches (toLowerCase (trim (searchInput s)))) (clients s)
                 = filter (fun c => includes (toLowerCase (fullName c))
                                      (toLowerCase (trim (searchInput s)))) (clients s)).
    { apply filter_ext. intros c. now apply searchMatches_includes. }
    split; [exact Hf|]. intros c. rewrite Hf, filter_In, includes_spec. reflexivity.
Qed.

Lemma search_selects_matches_of_trimmed_query_witness :
  let s := setSearchInput " an" (appWith [clientJoan; clientMona] None emptyForm) in
  toLowerCase (trim (searchInput s)) <> EmptyString /\
  clients (applySearch s) = [clientJoan; clientMona] /\
  exists rows,
    effects (applySearch s) = [RenderTable rows (clientCountText (List.length rows))] /\
    rows = [clientJoan].
Proof.
  cbv zeta.
  assert (Hne : toLowerCase (trim " an") <> EmptyString) by discriminate.
  split; [exact Hne|].
  destruct (search_selects_matches_of_trimmed_query
              (setSearchInput " an" (appWith [clientJoan; clientMona] None emptyForm)))
    as (Hc & _ & rows & He & _ & Hrows & _).
  split; [exact Hc|]. exists rows. split; [exact He|].
  exact (proj1 (Hrows Hne)).
Defined.

(** ** Delete *)

Lemma findById_none (i : Z) (l : list Client) :
  findById i l = None <-> ~ In i (map id l).
Proof.
  unfold findById. induction l as [|c l IH]; cbn [find map In]; [tauto|].
  destruct (Z.eqb_spec (id c) i) as [Hc|Hc].
  - split; [discriminate | tauto].
  - rewrite IH. tauto.
Qed.

(** An id that matches no record: the handler returns at once. *)
Lemma clickDelete_unknown (i : Z) (ok : bool) (s : App) :
  ~ In i (map id (clients s)) -> clickDelete i ok s = s.
Proof.
  intros H. unfold clickDelete.
  now rewrite (proj2 (findById_none i (clients s)) H).
Qed.

(** A declined confirmation: only the question was asked. *)
Lemma clickDelete_declined (i : Z) (s : App) :
  In i (map id (clients s)) ->
  exists c, findById i (clients s) = Some c /\
    clickDelete i false s =
      emit (Confirm ("Delete client " ++ String JSON.dquote (fullName c)
                       ++ String JSON.dquote "?")) s.
Proof.
  intros H. unfold clickDelete.
  destruct (findById i (clients s)) as [c|] eqn:Hf.
  - exists c. split; reflexivity.
  - apply findById_none in Hf. contradiction.
Qed.

Lemma filter_other_ids (i : Z) (before after : list Client) (old : Client) :
  id old = i ->
  ~ In i (map id before) -> ~ In i (map id after) ->
  filter (fun c => negb (id c =? i)) (before ++ old :: after)
  = (before ++ after)%list.
Proof.
  intros Ho Hb Ha. rewrite filter_app. cbn [filter].
  rewrite (proj2 (Z.eqb_eq _ _) Ho). cbn [negb].
  assert (Hkeep : forall l, ~ In i (map id l) ->
                            filter (fun c => negb (id c =? i)) l = l).
  { induction l as [|c l IH]; cbn [map In filter]; [reflexivity|].
    intros H. destruct (Z.eqb_spec (id c) i) as [Hc|Hc]; [tauto|].
    cbn [negb]. rewrite IH; tauto. }
  now rewrite (Hkeep before Hb), (Hkeep after Ha).
Qed.

(** An accepted confirmation: the records with another id stay, in their
    order; none with the id is left; the result is saved and rendered.
    When the id occurs once, exactly that record is gone. *)
Lemma clickDelete_accepted (i : Z) (s : App) :
  In i (map id (clients s)) ->
  let s' := clickDelete i true s in
  let l := filter (fun c => negb (id c =? i)) (clients s) in
  clients s' = l /\
  storage s' = Some (stringifyClients l) /\
  ~ In i (map id (clients s')) /\
  (forall c, In c (clients s') <-> In c (clients s) /\ id c <> i) /\
  (forall before old after,
     clients s = (before ++ old :: after)%list -> id old = i ->
     ~ In i (map id before) -> ~ In i (map id after) ->
     clients s' = (before ++ after)%list).
Proof.
  intros H. cbv zeta. unfold clickDelete.
  destruct (findById i (clients s)) as [c|] eqn:Hf;
    [|apply findById_none in Hf; contradiction].
  app_simpl. cbn [negb]. split; [reflexivity|]. split; [reflexivity|].
  assert (Hin : forall c0, In c0 (filter (fun c1 => negb (id c1 =? i)) (clients s))
                           <-> In c0 (clients s) /\ id c0 <> i).
  { intros c0. rewrite filter_In, negb_true_iff, Z.eqb_neq. reflexivity. }
  split; [|split; [exact Hin|]].
  - rewrite in_map_iff. intros (c0 & Hc0 & Hi). apply Hin in Hi. tauto.
  - intros before old after Hl Ho Hb Ha. rewrite Hl.
    now apply filter_other_ids.
Qed.

Example scenario_D :
  let s := appWith [clientAli; clientMona] None emptyForm in
  clients (clickDelete (id clientAli) false s) = [clientAli; clientMona] /\
  storage (clickDelete (id clientAli) false s) = storage s /\
  clients (clickDelete (id clientAli) true s) = [clientMona] /\
  storage (clickDelete (id clientAli) true s) = Some (stringifyClients [clientMona]).
Proof. repeat split. Qed.


(** ** The start-date check *)

Lemma falsy_of_parsed (s : string) (y m d : Z) :
  parseIsoDate s = Some (y, m, d) -> falsy s = false.
Proof. destruct s; [discriminate | reflexivity]. Qed.

(** On a date in the form of a date input the check compares two local
    calendar days: the one that contains midnight UTC of the date, and the
    one that contains the current instant. *)
Lemma isDateNotInPast_days (E : Env) (s : string) (y m d : Z) :
  parseIsoDate s = Some (y, m, d) ->
  isDateNotInPast E s =
    (localDay E (now E) <=? localDay E (daysFromCivil y m d * msPerDay)).
Proof.
  intros H. unfold isDateNotInPast, newDate.
  rewrite (falsy_of_parsed s y m d H), H.
  unfold setHoursZero, geDate, localDay.
  set (a := (now E + tzOffsetMs E) / msPerDay).
  set (b := (daysFromCivil y m d * msPerDay + tzOffsetMs E) / msPerDay).
  unfold msPerDay.
  destruct (Z.leb_spec a b) as [Hab|Hab];
    [apply Z.leb_le | apply Z.leb_gt]; lia.
Qed.

Lemma localDay_of_utc_midnight_east (E : Env) (day : Z) :
  0 <= tzOffsetMs E < msPerDay -> localDay E (day * msPerDay) = day.
Proof.
  intros H. unfold localDay. unfold msPerDay in *.
  rewrite Z.div_add_l by lia. rewrite Z.div_small by lia. lia.
Qed.

Lemma localDay_of_utc_midnight_west (E : Env) (day : Z) :
  - msPerDay <= tzOffsetMs E < 0 -> localDay E (day * msPerDay) = day - 1.
Proof.
  intros H. unfold localDay. unfold msPerDay in *.
  rewrite Z.div_add_l by lia.
  assert (Hq : tzOffsetMs E / 86400000 = -1).
  { symmetry. apply (Z.div_unique_pos _ _ (-1) (tzOffsetMs E + 86400000)); lia. }
  lia.
Qed.

(** At UTC and east of it, the check is the one the documentation of
    [isDateNotInPast] promises: today or later. *)
Lemma isDateNotInPast_east (E : Env) (s : string) (y m d : Z) :
  0 <= tzOffsetMs E < msPerDay ->
  parseIsoDate s = Some (y, m, d) ->
  isDateNotInPast E s = (localDay E (now E) <=? daysFromCivil y m d).
Proof.
  intros Htz H. rewrite (isDateNotInPast_days E s y m d H).
  now rewrite localDay_of_utc_midnight_east.
Qed.

(** West of UTC, the check asks for a date strictly after today. *)
Lemma isDateNotInPast_west (E : Env) (s : string) (y m d : Z) :
  - msPerDay <= tzOffsetMs E < 0 ->
  parseIsoDate s = Some (y, m, d) ->
  isDateNotInPast E s = (localDay E (now E) <? daysFromCivil y m d).
Proof.
  intros Htz H. rewrite (isDateNotInPast_days E s y m d H).
  rewrite localDay_of_utc_midnight_west by exact Htz.
  destruct (Z.ltb_spec (localDay E (now E)) (daysFromCivil y m d));
    [apply Z.leb_le | apply Z.leb_gt]; lia.
Qed.

(** C5 at a start date equal to today's date, west of UTC: the date that
    [getTodayDate] returns is 2024-05-10, and the validator rejects it (it
    accepts the next day; east of UTC today's date is accepted). *)
Theorem start_date_today_rejected_west_of_utc :
  getTodayDate envNewYork = "2024-05-10" /\
  isDateNotInPast envNewYork (getTodayDate envNewYork) = false /\
  isDateNotInPast envNewYork "2024-05-11" = true /\
  getTodayDate envCairo = "2024-05-10" /\
  isDateNotInPast envCairo (getTodayDate envCairo) = true.
Proof. repeat split. Qed.

(** ** The selection of exercises *)

Section SelectionProperties.

Context {A : Type} (valid : A -> bool) (random : nat -> Q).

Lemma splice1_length (i : nat) (l : list A) :
  (i < List.length l)%nat -> List.length (splice1 i l) = pred (List.length l).
Proof.
  intros H. unfold splice1.
  rewrite length_app, firstn_length_le, length_skipn by lia. lia.
Qed.

Lemma randomIndex_range (k n : nat) :
  (0 <= random k)%Q -> (random k < 1)%Q -> (0 < n)%nat ->
  0 <= randomIndex random k n < Z.of_nat n.
Proof.
  intros H0 H1 Hn. unfold randomIndex.
  assert (Hpos : (0 < inject_Z (Z.of_nat n))%Q).
  { change 0%Q with (inject_Z 0). rewrite <- Zlt_Qlt. lia. }
  split.
  - change 0 with (Qfloor (inject_Z 0)) at 1. apply Qfloor_resp_le.
    apply Qmult_le_0_compat; [exact H0 | apply Qlt_le_weak, Hpos].
  - rewrite Zlt_Qlt.
    apply Qle_lt_trans with (random k * inject_Z (Z.of_nat n))%Q.
    + apply Qfloor_le.
    + rewrite <- (Qmult_1_l (inject_Z (Z.of_nat n))) at 2.
      apply Qmult_lt_compat_r; assumption.
Qed.

(** One turn of the loop. *)
Lemma selectLoop_unfold (k : nat) (sel av : list A) :
  selectLoop valid random k sel av =
    if ((List.length sel <? 5)%nat && (0 <? List.length av)%nat)%bool then
      match item av (randomIndex random k (List.length av)) with
      | Some x =>
          selectLoop valid random (S k) (if valid x then sel ++ [x] else sel)
            (splice1 (Z.to_nat (randomIndex random k (List.length av))) av)
      | None => None
      end
    else Some sel.
Proof.
  funelim (selectLoop valid random k sel av); rewrite Heq;
    try match goal with H : item _ _ = _ |- _ => rewrite H end;
    reflexivity.
Qed.

Lemma unsplice_neq (i p : nat) : unsplice i p <> i.
Proof. unfold unsplice. destruct (Nat.ltb_spec p i); lia. Qed.

Lemma unsplice_inj (i p q : nat) : unsplice i p = unsplice i q -> p = q.
Proof.
  unfold unsplice.
  destruct (Nat.ltb_spec p i), (Nat.ltb_spec q i); lia.
Qed.

Lemma nth_error_splice1 (i p : nat) (l : list A) :
  (i < List.length l)%nat ->
  nth_error (splice1 i l) p = nth_error l (unsplice i p).
Proof.
  intros Hi. unfold splice1, unsplice.
  destruct (Nat.ltb_spec p i) as [Hp|Hp].
  - rewrite nth_error_app1 by (rewrite firstn_length_le; lia).
    rewrite nth_error_firstn.
    now rewrite (proj2 (Nat.ltb_lt p i) Hp).
  - rewrite nth_error_app2 by (rewrite firstn_length_le; lia).
    rewrite firstn_length_le by lia.
    rewrite nth_error_skipn. f_equal. lia.
Qed.

Lemma drawnFrom_unsplice (i : nat) (l : list A) (ps : list nat) (picks : list A) :
  (i < List.length l)%nat ->
  drawnFrom (splice1 i l) ps picks ->
  drawnFrom l (map (unsplice i) ps) picks /\ ~ In i (map (unsplice i) ps).
Proof.
  intros Hi [Hnd Hall]. split; [split|].
  - apply Injective_map_NoDup; [|exact Hnd].
    intros p q. apply unsplice_inj.
  - induction Hall as [|p x ps picks Hp _ IH]; cbn [map]; constructor.
    + rewrite <- nth_error_splice1 by exact Hi. exact Hp.
    + apply IH. now inversion Hnd.
  - rewrite in_map_iff. intros (p & Hp & _). exact (unsplice_neq i p Hp).
Qed.

(** The loop ends without an exception; what it adds to [selected] was
    drawn from [available] without replacement, passed the check, and
    fills [selected] up to five items at most. *)
Lemma selectLoop_draws (Hr : unitInterval random) (n : nat) :
  forall (k : nat) (sel av : list A),
    List.length av = n ->
    exists ps picks,
      selectLoop valid random k sel av = Some (sel ++ picks)%list /\
      drawnFrom av ps picks /\
      Forall (fun x => valid x = true) picks /\
      (List.length sel <= 5 -> List.length (sel ++ picks) <= 5)%nat.
Proof.
  induction n as [n IH] using lt_wf_ind. intros k sel av Hn.
  rewrite selectLoop_unfold.
  destruct ((List.length sel <? 5)%nat && (0 <? List.length av)%nat)%bool eqn:Hc.
  - apply andb_true_iff in Hc. destruct Hc as [Hs Ha].
    apply Nat.ltb_lt in Hs. apply Nat.ltb_lt in Ha.
    destruct (Hr k) as [H0 H1].
    pose proof (randomIndex_range k (List.length av) H0 H1 Ha) as Hidx.
    set (i := randomIndex random k (List.length av)) in *.
    assert (Hi : (Z.to_nat i < List.length av)%nat) by lia.
    unfold item. destruct (Z.ltb_spec i 0) as [Hneg|_]; [lia|].
    destruct (nth_error av (Z.to_nat i)) as [x|] eqn:Hx;
      [|apply nth_error_None in Hx; lia].
    destruct (IH (List.length (splice1 (Z.to_nat i) av))
                ltac:(rewrite splice1_length by exact Hi; lia)
                (S k) (if valid x then (sel ++ [x])%list else sel)
                (splice1 (Z.to_nat i) av) eq_refl)
      as (ps & picks & Hrun & Hdraw & Hval & Hlen).
    destruct (drawnFrom_unsplice _ _ _ _ Hi Hdraw) as [[Hnd Hall] Hfresh].
    rewrite Hrun. destruct (valid x) eqn:Hvx.
    + exists (Z.to_nat i :: map (unsplice (Z.to_nat i)) ps), (x :: picks).
      rewrite <- app_assoc. split; [reflexivity|]. split; [split|split].
      * constructor; assumption.
      * constructor; assumption.
      * constructor; assumption.
      * intros _. change (x :: picks) with ([x] ++ picks)%list.
        rewrite app_assoc. apply Hlen. rewrite length_app. cbn. lia.
    + exists (map (unsplice (Z.to_nat i)) ps), picks.
      split; [reflexivity|]. split; [split; assumption|]. split; assumption.
  - exists [], []. rewrite app_nil_r. split; [reflexivity|].
    split; [split; constructor|]. split; [constructor | tauto].
Qed.

End SelectionProperties.


(** C6: for every fetched result set and every sequence of random values
    in the unit interval, the loop ends (the selection is defined by
    recursion on the shrinking array and returns normally), it yields at
    most 5 items, and the items are elements of the filtered set taken at
    pairwise distinct positions of it: no item is selected twice. *)
Theorem selection_samples_without_replacement
        (random : nat -> Q) (results : list Exercise) :
  unitInterval random ->
  exists selected positions,
    selectExercises random results = Some selected /\
    (List.length selected <= 5)%nat /\
    NoDup positions /\
    Forall2 (fun p x => nth_error (exercisesWithEnglish results) p = Some x)
            positions selected /\
    Forall (fun x => In x (exercisesWithEnglish results)) selected.
Proof.
  intros Hr. unfold selectExercises.
  destruct (selectLoop_draws hasEnglishName random Hr _ 0%nat []
              (exercisesWithEnglish results) eq_refl)
    as (ps & picks & Hrun & [Hnd Hall] & _ & Hlen).
  exists picks, ps. cbn [app] in Hrun, Hlen.
  split; [exact Hrun|]. split; [apply Hlen; cbn; lia|].
  split; [exact Hnd|]. split; [exact Hall|].
  clear Hrun Hlen Hnd. induction Hall as [|p x ps picks Hp _ IH]; constructor.
  - exact (nth_error_In _ _ Hp).
  - exact IH.
Qed.

Lemma selection_samples_without_replacement_witness :
  unitInterval (fun _ => 1 # 2)%Q /\
  exists selected positions,
    selectExercises (fun _ => 1 # 2)%Q sampleResults = Some selected /\
    (List.length selected <= 5)%nat /\
    NoDup positions /\
    Forall2 (fun p x => nth_error (exercisesWithEnglish sampleResults) p = Some x)
            positions selected /\
    Forall (fun x => In x (exercisesWithEnglish sampleResults)) selected.
Proof.
  assert (Hr : unitInterval (fun _ => 1 # 2)%Q).
  { intros k. unfold Qle, Qlt. cbn. lia. }
  split; [exact Hr|].
  exact (selection_samples_without_replacement (fun _ => 1 # 2)%Q sampleResults Hr).
Defined.

Example selection_ex :
  option_map (map exerciseId) (selectExercises (fun _ => 1 # 2)%Q sampleResults)
  = Some [5; 6; 8; 2; 9].
Proof. vm_compute. reflexivity. Qed.

(** ** Persistence: save, then load *)

Lemma append_assoc (a b c : string) : (a ++ b) ++ c = a ++ (b ++ c).
Proof. induction a as [|x a IH]; cbn; [reflexivity | now rewrite IH]. Qed.

Lemma length_append (a b : string) :
  String.length (a ++ b) = (String.length a + String.length b)%nat.
Proof. induction a as [|x a IH]; cbn; [reflexivity | now rewrite IH]. Qed.

(** *** Quoted strings *)

Lemma parseStringBody_quoteChar (c : ascii) (tail : string) :
  JSON.parseStringBody (JSON.quoteChar c ++ tail)
  = JSON.consUnit (N_of_ascii c) (JSON.parseStringBody tail).
Proof.
  destruct c as [[] [] [] [] [] [] [] []]; reflexivity.
Qed.

Lemma parseStringBody_quoteBody (s rest : string) :
  JSON.parseStringBody (JSON.quoteBody s ++ String JSON.dquote rest)
  = Some (JSON.units s, rest).
Proof.
  induction s as [|c s IH]; cbn [JSON.quoteBody].
  - reflexivity.
  - rewrite append_assoc, parseStringBody_quoteChar, IH. reflexivity.
Qed.

Lemma quote_append (s rest : string) :
  JSON.quote s ++ rest
  = String JSON.dquote (JSON.quoteBody s ++ String JSON.dquote rest).
Proof. unfold JSON.quote. cbn [append]. now rewrite append_assoc. Qed.

Lemma ofUnits_units (s : string) : JSON.ofUnits (JSON.units s) = Some s.
Proof.
  unfold JSON.units. induction s as [|c s IH]; cbn [list_ascii_of_string map JSON.ofUnits].
  - reflexivity.
  - rewrite (proj2 (N.ltb_lt _ _) (N_ascii_bounded c)), IH, ascii_N_embedding.
    reflexivity.
Qed.

(** *** Numbers *)

Lemma digitChar_spec (m : Z) :
  0 <= m <= 9 -> isDigit (digitChar m) = true /\ digitVal (digitChar m) = m.
Proof.
  intros H. unfold isDigit, digitVal, digitChar.
  rewrite nat_ascii_embedding by lia. split; [|lia].
  apply andb_true_iff. split; apply Nat.leb_le; lia.
Qed.

Lemma digitChar_nonzero (m : Z) : 0 < m <= 9 -> Ascii.eqb (digitChar m) "0" = false.
Proof.
  intros H. apply Ascii.eqb_neq. intros Heq.
  apply (f_equal nat_of_ascii) in Heq. unfold digitChar in Heq.
  rewrite nat_ascii_embedding in Heq by lia.
  change (nat_of_ascii "0") with 48%nat in Heq. lia.
Qed.

Lemma natDigits_S (f : nat) (n : Z) (acc : string) :
  natDigits (S f) n acc =
    if n <? 10 then String (digitChar (n mod 10)) acc
    else natDigits f (n / 10) (String (digitChar (n mod 10)) acc).
Proof. reflexivity. Qed.

Lemma natDigits_small (f : nat) (n : Z) (acc : string) :
  0 <= n < 10 -> natDigits (S f) n acc = String (digitChar n) acc.
Proof.
  intros H. rewrite natDigits_S.
  rewrite (proj2 (Z.ltb_lt n 10)) by lia.
  now rewrite Z.mod_small by lia.
Qed.

Lemma natDigits_large (f : nat) (n : Z) (acc : string) :
  10 <= n ->
  natDigits (S f) n acc
  = natDigits f (n / 10) (String (digitChar (n mod 10)) acc).
Proof.
  intros H. rewrite natDigits_S.
  now rewrite (proj2 (Z.ltb_ge n 10)) by lia.
Qed.

Lemma natDigits_acc (f : nat) :
  forall n acc, natDigits f n acc = natDigits f n EmptyString ++ acc.
Proof.
  induction f as [|f IH]; intros n acc; cbn [natDigits].
  - reflexivity.
  - destruct (n <? 10); [reflexivity|].
    rewrite (IH _ (String _ acc)), (IH _ (String _ EmptyString)).
    now rewrite append_assoc.
Qed.

(** Reading back the digits of [n] multiplies what was read before by a
    power of ten and adds [n]. *)
Lemma readDigits_natDigits (f : nat) :
  forall n, 0 <= n < 2 ^ Z.of_nat (S f) ->
  exists len, (1 <= len)%nat /\
    forall a c rest,
      readDigits a c (natDigits (S f) n EmptyString ++ rest)
      = readDigits (a * 10 ^ Z.of_nat len + n) (c + len) rest.
Proof.
  induction f as [|f IH]; intros n Hn.
  - change (0 <= n < 2) in Hn.
    exists 1%nat. split; [lia|]. intros a c rest.
    rewrite natDigits_small by lia. cbn [append readDigits].
    destruct (digitChar_spec n ltac:(lia)) as [-> ->].
    f_equal; lia.
  - destruct (Z.lt_ge_cases n 10) as [Hs|Hs].
    + exists 1%nat. split; [lia|]. intros a c rest.
      rewrite natDigits_small by lia. cbn [append readDigits].
      destruct (digitChar_spec n ltac:(lia)) as [-> ->].
      f_equal; lia.
    + assert (Hq : 0 <= n / 10 < 2 ^ Z.of_nat (S f)).
      { rewrite (Nat2Z.inj_succ (S f)), Z.pow_succ_r in Hn by lia.
        split; [apply Z.div_pos; lia | apply Z.div_lt_upper_bound; lia]. }
      destruct (IH (n / 10) Hq) as (len & Hlen & Hread).
      exists (S len). split; [lia|]. intros a c rest.
      rewrite natDigits_large by lia.
      rewrite natDigits_acc, append_assoc, Hread. cbn [append readDigits].
      destruct (digitChar_spec (n mod 10)) as [-> ->];
        [pose proof (Z.mod_pos_bound n 10); lia|].
      f_equal; [|lia].
      rewrite (Nat2Z.inj_succ len), Z.pow_succ_r by lia.
      pose proof (Z.div_mod n 10). lia.
Qed.

(** The digits start with a digit, and not with a zero unless the number
    is zero. *)
Lemma natDigits_head (f : nat) :
  forall n acc, 0 <= n < 2 ^ Z.of_nat (S f) ->
  exists c r, natDigits (S f) n acc = String c r /\
              isDigit c = true /\ (0 < n -> Ascii.eqb c "0" = false).
Proof.
  assert (Hsmall : forall f n acc, 0 <= n < 10 ->
    exists c r, natDigits (S f) n acc = String c r /\
                isDigit c = true /\ (0 < n -> Ascii.eqb c "0" = false)).
  { intros f' n acc Hn. rewrite natDigits_small by lia.
    eexists _, _. split; [reflexivity|]. split.
    - apply digitChar_spec. lia.
    - intros Hp. apply digitChar_nonzero. lia. }
  induction f as [|f IH]; intros n acc Hn.
  - change (0 <= n < 2) in Hn. apply Hsmall. lia.
  - destruct (Z.lt_ge_cases n 10) as [Hs|Hs]; [apply Hsmall; lia|].
    assert (Hq : 0 <= n / 10 < 2 ^ Z.of_nat (S f)).
    { rewrite (Nat2Z.inj_succ (S f)), Z.pow_succ_r in Hn by lia.
      split; [apply Z.div_pos; lia | apply Z.div_lt_upper_bound; lia]. }
    rewrite natDigits_large by lia.
    destruct (IH (n / 10) (String (digitChar (n mod 10)) acc) Hq)
      as (c & r & Heq & Hd & Hz).
    exists c, r. split; [exact Heq|]. split; [exact Hd|].
    intros _. apply Hz. apply Z.div_str_pos. lia.
Qed.

Lemma log2_fuel (n : Z) : 0 <= n -> 0 <= n < 2 ^ Z.of_nat (S (Z.to_nat (Z.log2 n))).
Proof.
  intros Hn. split; [exact Hn|].
  rewrite Nat2Z.inj_succ, Z2Nat.id by apply Z.log2_nonneg.
  destruct (Z.eq_dec n 0) as [->|Hz]; [reflexivity|].
  apply Z.log2_spec. lia.
Qed.

(** What the dispatch of [parseValue] and the number grammar see in a
    digit. *)
Lemma digit_class (c : ascii) :
  isDigit c = true ->
  JSON.isJsonWs c = false /\ Ascii.eqb c "[" = false /\ Ascii.eqb c "{" = false /\
  Ascii.eqb c JSON.dquote = false /\ Ascii.eqb c "t" = false /\
  Ascii.eqb c "f" = false /\ Ascii.eqb c "n" = false /\ Ascii.eqb c "-" = false.
Proof.
  destruct c as [[] [] [] [] [] [] [] []]; cbn; intros H;
    try discriminate H; repeat split.
Qed.

Lemma parseInt__nat (n : Z) (r : string) :
  0 <= n ->
  JSON.parseInt_ (natDigits (S (Z.to_nat (Z.log2 n))) n EmptyString ++ String "," r)
  = Some (n, String "," r).
Proof.
  intros Hn. pose proof (log2_fuel n Hn) as Hf.
  destruct (natDigits_head _ n EmptyString Hf) as (c & s & Heq & Hd & Hz).
  destruct (readDigits_natDigits _ n Hf) as (len & Hlen & Hread).
  specialize (Hread 0 0%nat (String "," r)).
  unfold JSON.parseInt_. rewrite Heq in *. cbn [append] in *.
  destruct (Z.eq_dec n 0) as [->|Hnz].
  - cbn in Heq. injection Heq as <- <-. reflexivity.
  - rewrite Hz by lia. unfold JSON.digits1. rewrite Hread.
    cbn [readDigits]. change (isDigit ",") with false. cbn iota.
    rewrite Z.mul_0_l, Z.add_0_l. destruct len; [lia | reflexivity].
Qed.

Lemma parseNumber_numberToString (z : Z) (r : string) :
  JSON.parseNumber (numberToString z ++ String "," r)
  = Some (JSON.JNumber z 0, String "," r).
Proof.
  unfold numberToString. destruct (Z.ltb_spec z 0) as [Hneg|Hpos].
  - cbn [append]. unfold JSON.parseNumber.
    change (Ascii.eqb "-" "-") with true. cbn iota.
    rewrite parseInt__nat by lia. cbn -[Z.mul Z.add Z.opp].
    f_equal. f_equal. f_equal. lia.
  - pose proof (log2_fuel z Hpos) as Hf.
    destruct (natDigits_head _ z EmptyString Hf) as (c & s & Heq & Hd & _).
    unfold JSON.parseNumber.
    pose proof (parseInt__nat z r Hpos) as Hint.
    rewrite Heq in *. cbn [append] in *.
    destruct (digit_class c Hd) as (_ & _ & _ & _ & _ & _ & _ & Hminus).
    rewrite Hminus, Hint. cbn -[Z.mul Z.add Z.opp].
    f_equal. f_equal. f_equal. lia.
Qed.

Lemma parseValue_S (f : nat) (s : string) :
  JSON.parseValue (S f) s =
    match JSON.skipWs s with
    | EmptyString => None
    | String c r =>
        if Ascii.eqb c "[" then
          match JSON.skipWs r with
          | String c1 r1 =>
              if Ascii.eqb c1 "]" then Some (JSON.JArray [], r1)
              else
                match JSON.parseElements f r with
                | Some (vs, rest) => Some (JSON.JArray vs, rest)
                | None => None
                end
          | EmptyString => None
          end
        else if Ascii.eqb c "{" then
          match JSON.skipWs r with
          | String c1 r1 =>
              if Ascii.eqb c1 "}" then Some (JSON.JObject [], r1)
              else
                match JSON.parseMembers f r with
                | Some (ms, rest) => Some (JSON.JObject ms, rest)
                | None => None
                end
          | EmptyString => None
          end
        else if Ascii.eqb c JSON.dquote then
          match JSON.parseStringBody r with
          | Some (u, rest) => Some (JSON.JString u, rest)
          | None => None
          end
        else if Ascii.eqb c "t" then JSON.parseLiteral "true" (JSON.JBool true) (String c r)
        else if Ascii.eqb c "f" then JSON.parseLiteral "false" (JSON.JBool false) (String c r)
        else if Ascii.eqb c "n" then JSON.parseLiteral "null" JSON.JNull (String c r)
        else JSON.parseNumber (String c r)
    end.
Proof. reflexivity. Qed.


(** Tests on literal characters are decided by evaluation. *)
Ltac decide_chars :=
  repeat match goal with
         | |- context [Ascii.eqb ?a ?b] =>
             let v := eval vm_compute in (Ascii.eqb a b) in
             change (Ascii.eqb a b) with v
         | |- context [JSON.isJsonWs ?a] =>
             let v := eval vm_compute in (JSON.isJsonWs a) in
             change (JSON.isJsonWs a) with v
         end;
  cbv iota.

Lemma skipWs_S (c : ascii) (r : string) :
  JSON.skipWs (String c r) = if JSON.isJsonWs c then JSON.skipWs r else String c r.
Proof. reflexivity. Qed.

Lemma parseValue_string (f : nat) (s rest : string) :
  JSON.parseValue (S f) (JSON.quote s ++ rest) = Some (JSON.JString (JSON.units s), rest).
Proof.
  rewrite parseValue_S, quote_append, skipWs_S. decide_chars.
  now rewrite parseStringBody_quoteBody.
Qed.

Lemma parseValue_number (f : nat) (z : Z) (r : string) :
  JSON.parseValue (S f) (numberToString z ++ String "," r)
  = Some (JSON.JNumber z 0, String "," r).
Proof.
  rewrite parseValue_S, <- parseNumber_numberToString.
  unfold numberToString. destruct (Z.ltb_spec z 0) as [Hneg|Hpos].
  - cbn [append]. rewrite skipWs_S. decide_chars. reflexivity.
  - destruct (natDigits_head _ z EmptyString (log2_fuel z Hpos))
      as (c & s & -> & Hd & _).
    cbn [append]. rewrite skipWs_S.
    destruct (digit_class c Hd) as (-> & -> & -> & -> & -> & -> & -> & _).
    reflexivity.
Qed.

Lemma parseMembers_S (f : nat) (s : string) :
  JSON.parseMembers (S f) s =
    match JSON.skipWs s with
    | String q r =>
        if Ascii.eqb q JSON.dquote then
          match JSON.parseStringBody r with
          | Some (k, r1) =>
              match JSON.skipWs r1 with
              | String c r2 =>
                  if Ascii.eqb c ":" then
                    match JSON.parseValue f r2 with
                    | Some (v, r3) =>
                        match JSON.skipWs r3 with
                        | String c3 r4 =>
                            if Ascii.eqb c3 "," then
                              match JSON.parseMembers f r4 with
                              | Some (ms, rest) => Some ((k, v) :: ms, rest)
                              | None => None
                              end
                            else if Ascii.eqb c3 "}" then Some ([(k, v)], r4)
                            else None
                        | EmptyString => None
                        end
                    | None => None
                    end
                  else None
              | EmptyString => None
              end
          | None => None
          end
        else None
    | EmptyString => None
    end.
Proof. reflexivity. Qed.

Lemma parseElements_S (f : nat) (s : string) :
  JSON.parseElements (S f) s =
    match JSON.parseValue f s with
    | Some (v, r) =>
        match JSON.skipWs r with
        | String c r1 =>
            if Ascii.eqb c "," then
              match JSON.parseElements f r1 with
              | Some (vs, rest) => Some (v :: vs, rest)
              | None => None
              end
            else if Ascii.eqb c "]" then Some ([v], r1)
            else None
        | EmptyString => None
        end
    | None => None
    end.
Proof. reflexivity. Qed.

(** *** The fuel of the parser is enough *)

Lemma skipWs_length (s : string) : (String.length (JSON.skipWs s) <= String.length s)%nat.
Proof.
  induction s as [|c s IH]; cbn [JSON.skipWs]; [lia|].
  destruct (JSON.isJsonWs c); cbn [String.length]; lia.
Qed.

Lemma consUnit_some (n : N) (x : option (list N * string)) (u : list N) (r : string) :
  JSON.consUnit n x = Some (u, r) -> exists u', x = Some (u', r).
Proof.
  destruct x as [[u' r']|]; cbn; [|discriminate].
  intros [= _ <-]. eauto.
Qed.

Lemma parseStringBody_length (s : string) :
  forall u r, JSON.parseStringBody s = Some (u, r) -> (String.length r < String.length s)%nat.
Proof.
  assert (Haux : forall n s u r, (String.length s <= n)%nat ->
            JSON.parseStringBody s = Some (u, r) -> (String.length r < String.length s)%nat).
  { induction n as [|n IH]; intros s0 u r Hn;
      (destruct s0 as [|c s0]; cbn [JSON.parseStringBody]; [discriminate|]);
      cbn [String.length] in Hn; [lia|].
    destruct (Ascii.eqb c JSON.dquote).
    { intros [= _ <-]. cbn. lia. }
    destruct (Ascii.eqb c JSON.backslash).
    - destruct s0 as [|e s1]; [discriminate|].
      destruct (Ascii.eqb e "u").
      + destruct s1 as [|h1 [|h2 [|h3 [|h4 r2]]]]; try discriminate.
        destruct (JSON.hex4 h1 h2 h3 h4); [|discriminate].
        intros H. apply consUnit_some in H. destruct H as (u' & H).
        apply IH in H; cbn [String.length] in *; lia.
      + destruct (JSON.escapeVal e); [|discriminate].
        intros H. apply consUnit_some in H. destruct H as (u' & H).
        apply IH in H; cbn [String.length] in *; lia.
    - destruct (nat_of_ascii c <? 32)%nat; [discriminate|].
      intros H. apply consUnit_some in H. destruct H as (u' & H).
      apply IH in H; cbn [String.length] in *; lia. }
  intros u r. apply (Haux (String.length s)). lia.
Qed.

Lemma readDigits_length (s : string) :
  forall a c v c' r,
    readDigits a c s = (v, c', r) ->
    (String.length r + c' = String.length s + c)%nat.
Proof.
  induction s as [|x s IH]; intros a c v c' r; cbn [readDigits].
  - intros [= _ <- <-]. reflexivity.
  - destruct (isDigit x).
    + intros H. apply IH in H. cbn [String.length]. lia.
    + intros [= _ <- <-]. reflexivity.
Qed.

Lemma digits1_length (a : Z) (s : string) (v : Z) (k : nat) (r : string) :
  JSON.digits1 a s = Some (v, k, r) -> (String.length r < String.length s)%nat.
Proof.
  unfold JSON.digits1. destruct (readDigits a 0 s) as [[v' k'] r'] eqn:Hr.
  apply readDigits_length in Hr.
  destruct k'; [discriminate|]. intros [= _ _ <-]. lia.
Qed.

Lemma parseNumber_length (s : string) (v : JSON.json) (r : string) :
  JSON.parseNumber s = Some (v, r) -> (String.length r < String.length s)%nat.
Proof.
  unfold JSON.parseNumber.
  set (p := match s with
            | String c r0 => if Ascii.eqb c "-" then (-1, r0) else (1, s)
            | EmptyString => (1, s)
            end).
  assert (Hp : (String.length (snd p) <= String.length s)%nat).
  { subst p. destruct s as [|c r0]; [cbn; lia|].
    destruct (Ascii.eqb c "-"); cbn; lia. }
  destruct p as [sign s1]. cbn [snd] in Hp.
  destruct (JSON.parseInt_ s1) as [[i s2]|] eqn:Hi; [|discriminate].
  assert (H2 : (String.length s2 < String.length s1)%nat).
  { unfold JSON.parseInt_ in Hi. destruct s1 as [|c r1]; [discriminate|].
    destruct (Ascii.eqb c "0").
    - injection Hi as _ <-. cbn. lia.
    - destruct (JSON.digits1 0 (String c r1)) as [[[v0 k0] r0]|] eqn:Hd; [|discriminate].
      injection Hi as _ <-. exact (digits1_length _ _ _ _ _ Hd). }
  destruct (JSON.parseFrac i s2) as [[[m e1] s3]|] eqn:Hf; [|discriminate].
  assert (H3 : (String.length s3 <= String.length s2)%nat).
  { unfold JSON.parseFrac in Hf. destruct s2 as [|c r2].
    - injection Hf as _ _ <-. lia.
    - destruct (Ascii.eqb c ".").
      + destruct (JSON.digits1 i r2) as [[[v0 k0] r0]|] eqn:Hd; [|discriminate].
        injection Hf as _ _ <-. apply digits1_length in Hd. cbn. lia.
      + injection Hf as _ _ <-. lia. }
  destruct (JSON.parseExp s3) as [[e2 s4]|] eqn:He; [|discriminate].
  assert (H4 : (String.length s4 <= String.length s3)%nat).
  { unfold JSON.parseExp in He. destruct s3 as [|c r3].
    - injection He as _ <-. lia.
    - destruct (Ascii.eqb c "e" || Ascii.eqb c "E").
      + set (q := match r3 with
                  | String d r' =>
                      if Ascii.eqb d "-" then (-1, r')
                      else if Ascii.eqb d "+" then (1, r') else (1, r3)
                  | EmptyString => (1, r3)
                  end) in He.
        assert (Hq : (String.length (snd q) <= String.length r3)%nat).
        { subst q. destruct r3 as [|d r']; [cbn; lia|].
          destruct (Ascii.eqb d "-"); [cbn; lia|].
          destruct (Ascii.eqb d "+"); cbn; lia. }
        destruct q as [sg r4]. cbn [snd] in Hq.
        destruct (JSON.digits1 0 r4) as [[[v0 k0] r0]|] eqn:Hd; [|discriminate].
        injection He as _ <-. apply digits1_length in Hd. cbn. lia.
      + injection He as _ <-. lia. }
  intros [= _ <-]. lia.
Qed.

Lemma dropPrefix_length (w s r : string) :
  JSON.dropPrefix w s = Some r -> (String.length s = String.length w + String.length r)%nat.
Proof.
  revert s. induction w as [|a w IH]; intros s; cbn [JSON.dropPrefix].
  - intros [= ->]. reflexivity.
  - destruct s as [|b s]; [discriminate|].
    destruct (Ascii.eqb a b); [|discriminate].
    intros H. apply IH in H. cbn. lia.
Qed.

Lemma parseLiteral_length (w : string) (v0 v : JSON.json) (s r : string) :
  JSON.parseLiteral w v0 s = Some (v, r) -> (String.length s = String.length w + String.length r)%nat.
Proof.
  unfold JSON.parseLiteral. destruct (JSON.dropPrefix w s) eqn:Hd; [|discriminate].
  intros [= _ <-]. now apply dropPrefix_length.
Qed.

Lemma parser_fuel (n : nat) :
  JSON.fuelEnough JSON.parseValue n /\
  JSON.fuelEnough JSON.parseElements n /\
  JSON.fuelEnough JSON.parseMembers n.
Proof.
  induction n as [|n (IHv & IHe & IHm)].
  { split; [|split]; intros s v r H; discriminate H. }
  split; [|split]; intros s v r H.
  - (* parseValue *)
    rewrite parseValue_S in H.
    pose proof (skipWs_length s) as Hl.
    destruct (JSON.skipWs s) as [|c r0] eqn:Hs; [discriminate H|].
    cbn [String.length] in Hl.
    destruct (Ascii.eqb c "[") eqn:Hc1.
    { pose proof (skipWs_length r0) as Hl0.
      destruct (JSON.skipWs r0) as [|c1 r1] eqn:Hs0; [discriminate H|].
      cbn [String.length] in Hl0.
      destruct (Ascii.eqb c1 "]") eqn:Hc2.
      - injection H as <- <-. split; [lia|].
        intros [|m] Hm; [lia|]. now rewrite parseValue_S, Hs, Hc1, Hs0, Hc2.
      - destruct (JSON.parseElements n r0) as [[vs rest]|] eqn:He; [|discriminate H].
        injection H as <- <-. destruct (IHe _ _ _ He) as [Hlt Hm'].
        split; [lia|].
        intros [|m] Hm; [lia|]. rewrite parseValue_S, Hs, Hc1, Hs0, Hc2.
        rewrite Hm' by lia. reflexivity. }
    destruct (Ascii.eqb c "{") eqn:Hc2.
    { pose proof (skipWs_length r0) as Hl0.
      destruct (JSON.skipWs r0) as [|c1 r1] eqn:Hs0; [discriminate H|].
      cbn [String.length] in Hl0.
      destruct (Ascii.eqb c1 "}") eqn:Hc3.
      - injection H as <- <-. split; [lia|].
        intros [|m] Hm; [lia|]. now rewrite parseValue_S, Hs, Hc1, Hc2, Hs0, Hc3.
      - destruct (JSON.parseMembers n r0) as [[ms rest]|] eqn:He; [|discriminate H].
        injection H as <- <-. destruct (IHm _ _ _ He) as [Hlt Hm'].
        split; [lia|].
        intros [|m] Hm; [lia|]. rewrite parseValue_S, Hs, Hc1, Hc2, Hs0, Hc3.
        rewrite Hm' by lia. reflexivity. }
    assert (Hleaf : (String.length r < S (String.length r0))%nat ->
              (String.length r < String.length s)%nat /\
              forall m, (2 * (String.length s - String.length r) <= m)%nat ->
                        JSON.parseValue m s = JSON.parseValue (S n) s).
    { intros Hlt. split; [lia|].
      intros [|m] Hm; [lia|]. now rewrite !parseValue_S, Hs, Hc1, Hc2. }
    assert (Hsame : JSON.parseValue (S n) s = Some (v, r))
      by (now rewrite parseValue_S, Hs, Hc1, Hc2).
    assert (Hlt : (String.length r < S (String.length r0))%nat).
    { destruct (Ascii.eqb c JSON.dquote).
      { destruct (JSON.parseStringBody r0) as [[u rest]|] eqn:Hb; [|discriminate H].
        injection H as <- <-. apply parseStringBody_length in Hb. lia. }
      destruct (Ascii.eqb c "t");
        [apply parseLiteral_length in H; cbn [String.length] in H; lia|].
      destruct (Ascii.eqb c "f");
        [apply parseLiteral_length in H; cbn [String.length] in H; lia|].
      destruct (Ascii.eqb c "n");
        [apply parseLiteral_length in H; cbn [String.length] in H; lia|].
      apply parseNumber_length in H. cbn [String.length] in H. lia. }
    destruct (Hleaf Hlt) as [H1 H2]. split; [exact H1|].
    intros m Hm. now rewrite H2.
  - (* parseElements *)
    rewrite parseElements_S in H.
    destruct (JSON.parseValue n s) as [[v0 r0]|] eqn:Hv; [|discriminate H].
    destruct (IHv _ _ _ Hv) as [Hlt Hm'].
    pose proof (skipWs_length r0) as Hl.
    destruct (JSON.skipWs r0) as [|c r1] eqn:Hs; [discriminate H|].
    cbn [String.length] in Hl.
    destruct (Ascii.eqb c ",") eqn:Hc1.
    + destruct (JSON.parseElements n r1) as [[vs rest]|] eqn:He; [|discriminate H].
      injection H as <- <-. destruct (IHe _ _ _ He) as [Hlt2 Hm2].
      split; [lia|].
      intros [|m] Hm; [lia|]. rewrite parseElements_S.
      rewrite Hm' by lia. rewrite Hs, Hc1. rewrite Hm2 by lia. reflexivity.
    + destruct (Ascii.eqb c "]") eqn:Hc2; [|discriminate H].
      injection H as <- <-. split; [lia|].
      intros [|m] Hm; [lia|]. rewrite parseElements_S.
      rewrite Hm' by lia. now rewrite Hs, Hc1, Hc2.
  - (* parseMembers *)
    rewrite parseMembers_S in H.
    pose proof (skipWs_length s) as Hl.
    destruct (JSON.skipWs s) as [|q r0] eqn:Hs; [discriminate H|].
    cbn [String.length] in Hl.
    destruct (Ascii.eqb q JSON.dquote) eqn:Hq; [|discriminate H].
    destruct (JSON.parseStringBody r0) as [[k r1]|] eqn:Hk; [|discriminate H].
    pose proof (parseStringBody_length _ _ _ Hk) as Hlk.
    pose proof (skipWs_length r1) as Hl1.
    destruct (JSON.skipWs r1) as [|c r2] eqn:Hs1; [discriminate H|].
    cbn [String.length] in Hl1.
    destruct (Ascii.eqb c ":") eqn:Hc; [|discriminate H].
    destruct (JSON.parseValue n r2) as [[v0 r3]|] eqn:Hv; [|discriminate H].
    destruct (IHv _ _ _ Hv) as [Hlt Hm'].
    pose proof (skipWs_length r3) as Hl3.
    destruct (JSON.skipWs r3) as [|c3 r4] eqn:Hs3; [discriminate H|].
    cbn [String.length] in Hl3.
    destruct (Ascii.eqb c3 ",") eqn:Hc3.
    + destruct (JSON.parseMembers n r4) as [[ms rest]|] eqn:He; [|discriminate H].
      injection H as <- <-. destruct (IHm _ _ _ He) as [Hlt2 Hm2].
      split; [lia|].
      intros [|m] Hm; [lia|]. rewrite parseMembers_S, Hs, Hq, Hk, Hs1, Hc.
      rewrite Hm' by lia. rewrite Hs3, Hc3. rewrite Hm2 by lia. reflexivity.
    + destruct (Ascii.eqb c3 "}") eqn:Hc4; [|discriminate H].
      injection H as <- <-. split; [lia|].
      intros [|m] Hm; [lia|]. rewrite parseMembers_S, Hs, Hq, Hk, Hs1, Hc.
      rewrite Hm' by lia. now rewrite Hs3, Hc3, Hc4.
Qed.

(** [JSON.parse] does not depend on the fuel: a text that parses with some
    fuel, up to trailing white space, parses with the fuel of [parse]. *)
Lemma parse_complete (s : string) (n : nat) (v : JSON.json) (r : string) :
  JSON.parseValue n s = Some (v, r) ->
  JSON.skipWs r = EmptyString ->
  JSON.parse s = Some v.
Proof.
  intros H Hr. destruct (parser_fuel n) as (Hv & _ & _).
  destruct (Hv s v r H) as [Hlt Hm].
  unfold JSON.parse. rewrite Hm by lia. now rewrite Hr.
Qed.

Lemma parse_sound (s : string) (v : JSON.json) :
  JSON.parse s = Some v ->
  exists n r, JSON.parseValue n s = Some (v, r) /\ JSON.skipWs r = EmptyString.
Proof.
  unfold JSON.parse.
  destruct (JSON.parseValue (2 * String.length s + 2) s) as [[v0 r]|] eqn:H; [|discriminate].
  destruct (JSON.skipWs r) eqn:Hr; [|discriminate].
  intros [= <-]. eauto.
Qed.

(** A member with a string value, followed by another member. *)
Lemma parseMembers_string_more (f : nat) (k v tail : string) :
  JSON.parseMembers (S (S f)) (JSON.quote k ++ String ":" (JSON.quote v ++ String "," tail))
  = match JSON.parseMembers (S f) tail with
    | Some (ms, rest) =>
        Some ((JSON.units k, JSON.JString (JSON.units v)) :: ms, rest)
    | None => None
    end.
Proof.
  rewrite parseMembers_S, quote_append, skipWs_S. decide_chars.
  rewrite parseStringBody_quoteBody. rewrite skipWs_S. decide_chars.
  rewrite parseValue_string. rewrite skipWs_S. decide_chars. reflexivity.
Qed.

(** The last member, with a string value. *)
Lemma parseMembers_string_last (f : nat) (k v tail : string) :
  JSON.parseMembers (S (S f)) (JSON.quote k ++ String ":" (JSON.quote v ++ String "}" tail))
  = Some ([(JSON.units k, JSON.JString (JSON.units v))], tail).
Proof.
  rewrite parseMembers_S, quote_append, skipWs_S. decide_chars.
  rewrite parseStringBody_quoteBody. rewrite skipWs_S. decide_chars.
  rewrite parseValue_string. rewrite skipWs_S. decide_chars. reflexivity.
Qed.

(** A member with a number value, followed by another member. *)
Lemma parseMembers_number_more (f : nat) (k : string) (z : Z) (tail : string) :
  JSON.parseMembers (S (S f)) (JSON.quote k ++ String ":" (numberToString z ++ String "," tail))
  = match JSON.parseMembers (S f) tail with
    | Some (ms, rest) => Some ((JSON.units k, JSON.JNumber z 0) :: ms, rest)
    | None => None
    end.
Proof.
  rewrite parseMembers_S, quote_append, skipWs_S. decide_chars.
  rewrite parseStringBody_quoteBody. rewrite skipWs_S. decide_chars.
  rewrite parseValue_number. rewrite skipWs_S. decide_chars. reflexivity.
Qed.

(** An object whose first member follows the brace at once. *)
Lemma parseValue_object (f : nat) (k tail : string) :
  JSON.parseValue (S f) (String "{" (JSON.quote k ++ tail))
  = match JSON.parseMembers f (JSON.quote k ++ tail) with
    | Some (ms, rest) => Some (JSON.JObject ms, rest)
    | None => None
    end.
Proof.
  rewrite parseValue_S, skipWs_S. decide_chars.
  rewrite quote_append, skipWs_S. decide_chars. reflexivity.
Qed.

Ltac assoc_right := repeat rewrite append_assoc; cbn [append].

Lemma parseValue_client (f : nat) (c : Client) (rest : string) :
  JSON.parseValue (11 + f) (stringifyClient c ++ rest)
  = Some (jsonOfClient c, rest).
Proof.
  unfold stringifyClient. assoc_right.
  change (11 + f)%nat with (S (S (S (S (S (S (S (S (S (S (S f))))))))))).
  rewrite parseValue_object.
  rewrite parseMembers_number_more.
  rewrite !parseMembers_string_more.
  rewrite parseMembers_string_last.
  reflexivity.
Qed.

Lemma stringifyElements_cons (c c' : Client) (l : list Client) :
  stringifyElements (c :: c' :: l)
  = stringifyClient c ++ String "," (stringifyElements (c' :: l)).
Proof. reflexivity. Qed.

Lemma stringifyClient_head (c : Client) :
  exists r, stringifyClient c = String "{" (String JSON.dquote r).
Proof. unfold stringifyClient, JSON.quote. cbn [append]. eauto. Qed.

Lemma parseElements_clients (l : list Client) :
  forall (c : Client) (f : nat) (rest : string),
    JSON.parseElements (List.length (c :: l) + 11 + f)
      (stringifyElements (c :: l) ++ String "]" rest)
    = Some (map jsonOfClient (c :: l), rest).
Proof.
  induction l as [|c' l IH]; intros c f rest.
  - cbn [List.length Nat.add stringifyElements map].
    rewrite parseElements_S, (parseValue_client f c).
    rewrite skipWs_S. decide_chars. reflexivity.
  - rewrite stringifyElements_cons, append_assoc. cbn [append].
    replace (List.length (c :: c' :: l) + 11 + f)%nat
      with (S (11 + (List.length (c' :: l) + f))) by (cbn [List.length]; lia).
    rewrite parseElements_S, parseValue_client.
    rewrite skipWs_S. decide_chars.
    replace (11 + (List.length (c' :: l) + f))%nat
      with (List.length (c' :: l) + 11 + f)%nat by lia.
    rewrite IH. reflexivity.
Qed.

Lemma parseValue_clients (l : list Client) (f : nat) (rest : string) :
  JSON.parseValue (S (List.length l + 11 + f)) (stringifyClients l ++ rest)
  = Some (jsonOfClients l, rest).
Proof.
  unfold stringifyClients, jsonOfClients.
  rewrite parseValue_S. assoc_right. rewrite skipWs_S. decide_chars.
  destruct l as [|c l].
  - cbn [stringifyElements append]. rewrite skipWs_S. decide_chars. reflexivity.
  - assert (Hhead : exists r,
              stringifyElements (c :: l) ++ String "]" rest
              = String "{" r).
    { destruct (stringifyClient_head c) as (r & Hr).
      destruct l; [cbn [stringifyElements] | rewrite stringifyElements_cons];
        rewrite Hr; cbn [append]; eauto. }
    destruct Hhead as (r & Hr).
    rewrite Hr at 1. rewrite skipWs_S. decide_chars.
    rewrite parseElements_clients. reflexivity.
Qed.

Lemma stringifyClient_length (c : Client) :
  (10 <= String.length (stringifyClient c))%nat.
Proof.
  unfold stringifyClient. repeat rewrite length_append.
  cbn [String.length]. lia.
Qed.

Lemma stringifyElements_length (l : list Client) :
  (10 * List.length l <= String.length (stringifyElements l))%nat.
Proof.
  induction l as [|c l IH]; [cbn; lia|].
  pose proof (stringifyClient_length c) as Hc.
  destruct l as [|c' l]; [cbn [stringifyElements List.length]; lia|].
  rewrite stringifyElements_cons, length_append.
  cbn [String.length List.length] in *. lia.
Qed.

(** Parsing what [JSON.stringify] wrote for the clients gives back their
    JSON values. *)
Lemma parse_stringifyClients (l : list Client) :
  JSON.parse (stringifyClients l) = Some (jsonOfClients l).
Proof.
  destruct l as [|c l]; [reflexivity|].
  unfold JSON.parse.
  pose proof (stringifyElements_length (c :: l)) as Hlen.
  assert (Hs : String.length (stringifyClients (c :: l))
               = (2 + String.length (stringifyElements (c :: l)))%nat).
  { unfold stringifyClients. cbn [append String.length].
    rewrite length_append. cbn [String.length]. lia. }
  assert (Hfuel : exists f, (2 * String.length (stringifyClients (c :: l)) + 2
                             = S (List.length (c :: l) + 11 + f))%nat).
  { exists (2 * String.length (stringifyClients (c :: l)) + 1
            - (List.length (c :: l) + 11))%nat.
    cbn [List.length] in *. lia. }
  destruct Hfuel as (f & ->).
  pose proof (parseValue_clients (c :: l) f EmptyString) as Hp.
  assert (Hnil : forall s : string, s ++ EmptyString = s).
  { induction s as [|x s IH]; cbn; [reflexivity | now rewrite IH]. }
  rewrite Hnil in Hp. rewrite Hp. reflexivity.
Qed.

(** *** Reading the parsed value as client records *)

Lemma clientOfJson_jsonOfClient (c : Client) :
  clientOfJson (jsonOfClient c) = Some c.
Proof.
  destruct c as [i n a g e p go sd ed].
  unfold clientOfJson, jsonOfClient, getString, getInteger.
  cbn [id fullName age gender email phone goal startDate endDate List.length].
  generalize (ofUnits_units n) (ofUnits_units a) (ofUnits_units g)
             (ofUnits_units e) (ofUnits_units p) (ofUnits_units go)
             (ofUnits_units sd) (ofUnits_units ed).
  generalize (JSON.units n) (JSON.units a) (JSON.units g) (JSON.units e)
             (JSON.units p) (JSON.units go) (JSON.units sd) (JSON.units ed).
  intros un ua ug ue up ugo usd ued Hn Ha Hg He Hp Hgo Hsd Hed.
  repeat match goal with
         | |- context [getProp ?k ?ms] =>
             let v := eval vm_compute in (getProp k ms) in
             change (getProp k ms) with v
         end.
  cbv iota. change (0 <=? 0) with true. cbv iota.
  rewrite Hn, Ha, Hg, He, Hp, Hgo, Hsd, Hed.
  change (9 =? 9)%nat with true. cbv iota.
  now rewrite Z.pow_0_r, Z.mul_1_r.
Qed.

Lemma clientsOfJson_jsonOfClients (l : list Client) :
  clientsOfJson (jsonOfClients l) = Some l.
Proof.
  unfold clientsOfJson, jsonOfClients.
  induction l as [|c l IH]; cbn [map clientsOfJsonList]; [reflexivity|].
  now rewrite clientOfJson_jsonOfClient, IH.
Qed.

Lemma stringifyClients_truthy (l : list Client) : falsy (stringifyClients l) = false.
Proof. reflexivity. Qed.

Lemma loadClients_saveClients (l : list Client) (st : Storage) :
  loadClients (saveClients l st) = (jsonOfClients l, []).
Proof.
  unfold loadClients, saveClients.
  now rewrite stringifyClients_truthy, parse_stringifyClients.
Qed.

(** Loading the page after a save starts from the saved collection. *)
Lemma initApp_after_save (l : list Client) (st : Storage) :
  initApp (saveClients l st)
  = Some (mkApp l None None (saveClients l st) emptyForm EmptyString
                [RenderTable l (clientCountText (List.length l))]).
Proof.
  unfold initApp. rewrite loadClients_saveClients, clientsOfJson_jsonOfClients.
  reflexivity.
Qed.

(** C7: for every collection of client records, saving it and then
    loading gives back the value of the same records, field by field (the
    parsed array decodes to the collection itself); and [loadClients]
    returns the empty array when there is no stored item or when the item
    does not parse, the failure being logged on the console and not
    shown to the user. *)
Theorem save_then_load_round_trip :
  (forall (l : list Client) (st : Storage),
     loadClients (saveClients l st) = (jsonOfClients l, []) /\
     clientsOfJson (fst (loadClients (saveClients l st))) = Some l) /\
  loadClients None = (JSON.JArray [], []) /\
  (forall blob : string,
     JSON.parse blob = None ->
     fst (loadClients (Some blob)) = JSON.JArray [] /\
     forall e, In e (snd (loadClients (Some blob))) ->
               e = ConsoleError "Could not parse stored clients").
Proof.
  split; [|split].
  - intros l st. rewrite loadClients_saveClients. split; [reflexivity|].
    apply clientsOfJson_jsonOfClients.
  - reflexivity.
  - intros blob Hp. unfold loadClients. rewrite Hp.
    destruct (falsy blob); cbn [fst snd In]; split; tauto || (intros e [<-|[]]; reflexivity).
Qed.

Lemma save_then_load_round_trip_witness :
  JSON.parse "[{oops" = None /\
  fst (loadClients (Some "[{oops")) = JSON.JArray [] /\
  clientsOfJson (fst (loadClients (saveClients [clientAli; clientMona] None)))
  = Some [clientAli; clientMona].
Proof.
  destruct save_then_load_round_trip as (Hround & _ & Hbad).
  split; [reflexivity|]. split.
  - exact (proj1 (Hbad "[{oops" eq_refl)).
  - exact (proj2 (Hround [clientAli; clientMona] None)).
Defined.

Example stringify_ex :
  stringifyClients [clientMona] =
  "[{" ++ JSON.quote "id" ++ ":1715000000000," ++ JSON.quote "fullName" ++ ":"
  ++ JSON.quote "Mona Adel" ++ "," ++ JSON.quote "age" ++ ":" ++ JSON.quote EmptyString
  ++ "," ++ JSON.quote "gender" ++ ":" ++ JSON.quote "female" ++ ","
  ++ JSON.quote "email" ++ ":" ++ JSON.quote "mona@fit.com" ++ ","
  ++ JSON.quote "phone" ++ ":" ++ JSON.quote "01098765432" ++ ","
  ++ JSON.quote "goal" ++ ":" ++ JSON.quote "Run 10k" ++ ","
  ++ JSON.quote "startDate" ++ ":" ++ JSON.quote "2024-05-02" ++ ","
  ++ JSON.quote "endDate" ++ ":" ++ JSON.quote "2024-09-02" ++ "}]".
Proof. reflexivity. Qed.

Example parse_ex :
  JSON.parse " [1, -2.50e3, true, null, {} , [ ] ] "
  = Some (JSON.JArray [JSON.JNumber 1 0; JSON.JNumber (-250) 1; JSON.JBool true;
                       JSON.JNull; JSON.JObject []; JSON.JArray []]) /\
  JSON.parse "[1,]" = None /\ JSON.parse "01" = None /\
  JSON.parse "{'a':1}" = None.
Proof. repeat split. Qed.

(** ** Further properties of the code *)

(** ** More on the exercises *)

(** *** White space around a string *)

Lemma trimEnd_idempotent (s : string) : trimEnd (trimEnd s) = trimEnd s.
Proof.
  induction s as [|c s IH]; cbn [trimEnd]; [reflexivity|].
  destruct (isWhiteSpace c && falsy (trimEnd s)) eqn:Hc; [reflexivity|].
  cbn [trimEnd]. now rewrite IH, Hc.
Qed.

Lemma trimStart_head (s : string) (c : ascii) (r : string) :
  trimStart s = String c r -> isWhiteSpace c = false.
Proof.
  induction s as [|a s IH]; cbn [trimStart]; [discriminate|].
  destruct (isWhiteSpace a) eqn:Ha; [exact IH|].
  now intros [= <- _].
Qed.

Lemma trimEnd_head (s : string) (c : ascii) (r : string) :
  trimEnd s = String c r -> exists r', s = String c r'.
Proof.
  destruct s as [|a s]; cbn [trimEnd]; [discriminate|].
  destruct (isWhiteSpace a && falsy (trimEnd s)); [discriminate|].
  intros [= <- _]. eauto.
Qed.

(** The result of [trim] does not start with white space. *)
Lemma trim_head (s : string) (c : ascii) (r : string) :
  trim s = String c r -> isWhiteSpace c = false.
Proof.
  unfold trim. intros H. destruct (trimEnd_head _ _ _ H) as (r' & Hr).
  exact (trimStart_head _ _ _ Hr).
Qed.

Lemma trimStart_fixed (s : string) :
  (forall c r, s = String c r -> isWhiteSpace c = false) -> trimStart s = s.
Proof.
  destruct s as [|c r]; [reflexivity|]. intros H. cbn [trimStart].
  now rewrite (H c r eq_refl).
Qed.

(** [trim] changes nothing in a string that it has produced. *)
Lemma trim_idempotent (s : string) : trim (trim s) = trim s.
Proof.
  unfold trim at 1.
  rewrite (trimStart_fixed (trim s)).
  - unfold trim. apply trimEnd_idempotent.
  - intros c r. apply trim_head.
Qed.

(** The result of [trimEnd] does not end with white space. *)
Lemma trimEnd_last (s : string) (r : string) (c : ascii) :
  trimEnd s = r ++ String c EmptyString -> isWhiteSpace c = false.
Proof.
  revert r. induction s as [|a s IH]; intros r; cbn [trimEnd].
  - destruct r; discriminate.
  - destruct (isWhiteSpace a && falsy (trimEnd s)) eqn:Hc.
    + destruct r; discriminate.
    + destruct r as [|b r]; cbn [append].
      * intros [= -> Hs]. rewrite Hs in Hc. cbn in Hc.
        now rewrite andb_true_r in Hc.
      * intros [= _ Hs]. exact (IH _ Hs).
Qed.

Lemma trim_last (s : string) (r : string) (c : ascii) :
  trim s = r ++ String c EmptyString -> isWhiteSpace c = false.
Proof. unfold trim. apply trimEnd_last. Qed.

Lemma truthy_spec (s : string) : truthy s = true <-> s <> EmptyString.
Proof. destruct s; cbn; split; congruence. Qed.

(** *** What is selected is shown *)

Lemma find_stronger {A : Type} (p q : A -> bool) (l : list A) (x : A) :
  find p l = Some x -> q x = true ->
  find (fun y => p y && q y) l = Some x.
Proof.
  induction l as [|a l IH]; cbn [find]; [discriminate|].
  destruct (p a) eqn:Hp.
  - intros [= ->] Hq. now rewrite Hq.
  - intros H Hq. cbn [andb]. now apply IH.
Qed.

Lemma length_positive (s : string) :
  (0 <? String.length s)%nat = truthy s.
Proof. destruct s; reflexivity. Qed.

(** An exercise that passes the check of the selection loop has a name
    to show: the trimmed name of its first English translation. *)
Lemma selected_has_display_name (e : Exercise) :
  hasEnglishName e = true ->
  exists ts t,
    translations e = Some ts /\ find isEnglishNamed ts = Some t /\
    displayName e = Some (trim (name t)) /\
    trim (name t) <> EmptyString.
Proof.
  unfold hasEnglishName, displayName.
  destruct (translations e) as [ts|]; [|discriminate].
  destruct (find isEnglishNamed ts) as [t|] eqn:Hf; [|discriminate].
  intros H. apply andb_true_iff in H. destruct H as [Hn Ht].
  exists ts, t. split; [reflexivity|]. split; [exact Hf|].
  rewrite (find_stronger _ (fun t0 => (0 <? String.length (trim (name t0)))%nat) _ _ Hf)
    by (now rewrite length_positive).
  rewrite Hn.
  destruct (trim (name t)) eqn:Htn; [discriminate Ht|].
  split; [reflexivity | discriminate].
Qed.

Lemma listItems_of_selected (l : list Exercise) :
  Forall (fun e => hasEnglishName e = true) l ->
  List.length (listItems l) = List.length l /\
  Forall (fun n => n <> EmptyString /\ trim n = n) (listItems l).
Proof.
  unfold listItems. induction 1 as [|e l He _ [IHlen IHall]]; cbn [flat_map].
  - split; [reflexivity | constructor].
  - destruct (selected_has_display_name e He) as (ts & t & _ & _ & -> & Hne).
    cbn [app List.length]. split; [now rewrite IHlen|].
    constructor; [|exact IHall]. split; [exact Hne | apply trim_idempotent].
Qed.

(** *** How many exercises are selected *)

Section CountProperties.

Context {A : Type} (valid : A -> bool) (random : nat -> Q).

Lemma splice1_split (i : nat) (l : list A) (x : A) :
  nth_error l i = Some x ->
  l = (firstn i l ++ x :: skipn (S i) l)%list.
Proof.
  revert l. induction i as [|i IH]; intros [|y l]; cbn; try discriminate.
  - now intros [= ->].
  - intros H. f_equal. now apply IH.
Qed.

Lemma filter_splice1_length (i : nat) (l : list A) (x : A) :
  nth_error l i = Some x ->
  (List.length (filter valid l)
   = List.length (filter valid (splice1 i l)) + (if valid x then 1 else 0))%nat.
Proof.
  intros H. rewrite (splice1_split i l x H) at 1. unfold splice1.
  rewrite !filter_app, !length_app. cbn [filter].
  destruct (valid x); cbn [List.length]; lia.
Qed.

Lemma selectLoop_count (Hr : unitInterval random) (n : nat) :
  forall (k : nat) (sel av : list A),
    List.length av = n ->
    (List.length sel <= 5)%nat ->
    exists res,
      selectLoop valid random k sel av = Some res /\
      List.length res = Nat.min 5 (List.length sel + List.length (filter valid av)).
Proof.
  induction n as [n IH] using lt_wf_ind. intros k sel av Hn Hsel.
  rewrite selectLoop_unfold.
  destruct ((List.length sel <? 5)%nat && (0 <? List.length av)%nat)%bool eqn:Hc.
  - apply andb_true_iff in Hc. destruct Hc as [Hs Ha].
    apply Nat.ltb_lt in Hs. apply Nat.ltb_lt in Ha.
    destruct (Hr k) as [H0 H1].
    pose proof (randomIndex_range random k (List.length av) H0 H1 Ha) as Hidx.
    set (i := randomIndex random k (List.length av)) in *.
    assert (Hi : (Z.to_nat i < List.length av)%nat) by lia.
    unfold item. destruct (Z.ltb_spec i 0) as [Hneg|_]; [lia|].
    destruct (nth_error av (Z.to_nat i)) as [x|] eqn:Hx;
      [|apply nth_error_None in Hx; lia].
    pose proof (filter_splice1_length _ _ _ Hx) as Hf.
    destruct (IH (List.length (splice1 (Z.to_nat i) av))
                ltac:(rewrite splice1_length by exact Hi; lia)
                (S k) (if valid x then (sel ++ [x])%list else sel)
                (splice1 (Z.to_nat i) av) eq_refl)
      as (res & Hrun & Hlen).
    { destruct (valid x); [rewrite length_app; cbn; lia | lia]. }
    exists res. split; [exact Hrun|]. rewrite Hlen.
    destruct (valid x); [rewrite length_app; cbn [List.length]|]; lia.
  - exists sel. split; [reflexivity|].
    apply andb_false_iff in Hc. destruct Hc as [Hc|Hc].
    + apply Nat.ltb_ge in Hc. lia.
    + apply Nat.ltb_ge in Hc. destruct av; cbn [filter List.length] in *; lia.
Qed.

End CountProperties.

Lemma selection_ends_with_valid_items
      (random : nat -> Q) (results : list Exercise) :
  unitInterval random ->
  exists selected,
    selectExercises random results = Some selected /\
    Forall (fun e => hasEnglishName e = true) selected /\
    List.length selected
    = Nat.min 5 (List.length (filter hasEnglishName (exercisesWithEnglish results))).
Proof.
  intros Hr. unfold selectExercises.
  destruct (selectLoop_count hasEnglishName random Hr _ 0%nat []
              (exercisesWithEnglish results) eq_refl)
    as (res & Hrun & Hlen); [cbn; lia|].
  destruct (selectLoop_draws hasEnglishName random Hr _ 0%nat []
              (exercisesWithEnglish results) eq_refl)
    as (ps & picks & Hrun' & _ & Hval & _).
  cbn [app] in Hrun'. rewrite Hrun in Hrun'. injection Hrun' as <-.
  exists res. split; [exact Hrun|]. split; [exact Hval | exact Hlen].
Qed.

(** X1: the loop selects every exercise of the filtered array whose first
    English translation has a name that is not blank, up to five of them:
    every selected exercise passed the check, and their number does not
    depend on the random draws. *)
Theorem selection_takes_valid_exercises_up_to_five
        (random : nat -> Q) (results : list Exercise) :
  unitInterval random ->
  exists selected,
    selectExercises random results = Some selected /\
    Forall (fun e => hasEnglishName e = true) selected /\
    List.length selected
    = Nat.min 5 (List.length (filter hasEnglishName (exercisesWithEnglish results))).
Proof. exact (selection_ends_with_valid_items random results). Qed.

Lemma selection_takes_valid_exercises_up_to_five_witness :
  unitInterval (fun _ => 1 # 2)%Q /\
  exists selected,
    selectExercises (fun _ => 1 # 2)%Q sampleResults = Some selected /\
    List.length selected = 5%nat.
Proof.
  assert (Hr : unitInterval (fun _ => 1 # 2)%Q).
  { intros k. unfold Qle, Qlt. cbn. lia. }
  split; [exact Hr|].
  destruct (selection_takes_valid_exercises_up_to_five (fun _ => 1 # 2)%Q sampleResults Hr)
    as (selected & Hrun & _ & Hlen).
  exists selected. split; [exact Hrun | exact Hlen].
Defined.

(** X2: an exercise that passes the check of the selection loop is never
    skipped when the list is filled: the name shown is the trimmed name of
    its first English translation, and it is not empty. *)
Theorem selected_exercise_is_shown (e : Exercise) :
  hasEnglishName e = true ->
  exists ts t,
    translations e = Some ts /\ find isEnglishNamed ts = Some t /\
    language t = 2 /\
    displayName e = Some (trim (name t)) /\
    trim (name t) <> EmptyString.
Proof.
  intros H. destruct (selected_has_display_name e H) as (ts & t & Hts & Hf & Hd & Hne).
  exists ts, t. repeat split; try assumption.
  apply find_some in Hf. destruct Hf as [_ Hf].
  unfold isEnglishNamed in Hf. apply andb_true_iff in Hf.
  now apply Z.eqb_eq.
Qed.

Lemma selected_exercise_is_shown_witness :
  hasEnglishName (sampleExercise 1 " Squat ") = true /\
  displayName (sampleExercise 1 " Squat ") = Some "Squat".
Proof.
  split; [reflexivity|].
  destruct (selected_exercise_is_shown (sampleExercise 1 " Squat ") eq_refl)
    as (ts & t & Hts & Hf & _ & Hd & _).
  injection Hts as <-. injection Hf as <-. exact Hd.
Defined.

(** X3: after a successful response in which some exercise has an English
    name, the placeholder is cleared and the list holds one non-empty,
    trimmed name for each selected exercise: as many as there are
    exercises with a non-blank first English name, and five at most. *)
Theorem exercises_view_lists_the_selection
        (random : nat -> Q) (status statusText : string) (results : list Exercise) :
  unitInterval random ->
  exercisesWithEnglish results <> [] ->
  exists names,
    loadNextSessionExercises random (FetchResolved true status statusText (Some results))
    = (names, EmptyString) /\
    List.length names
    = Nat.min 5 (List.length (filter hasEnglishName (exercisesWithEnglish results))) /\
    Forall (fun n => n <> EmptyString /\ trim n = n) names.
Proof.
  intros Hr Hne.
  destruct (selection_ends_with_valid_items random results Hr)
    as (selected & Hrun & Hval & Hlen).
  destruct (listItems_of_selected selected Hval) as [Hl Hall].
  exists (listItems selected).
  unfold loadNextSessionExercises. cbn [negb].
  assert (Hres : results <> []) by (intros ->; apply Hne; reflexivity).
  destruct results as [|r0 results]; [congruence|]. cbn [List.length Nat.eqb].
  destruct (exercisesWithEnglish (r0 :: results)) as [|e0 l] eqn:He; [congruence|].
  cbn [List.length Nat.eqb].
  unfold selectExercises in Hrun. rewrite He in Hrun. rewrite Hrun.
  split; [reflexivity|]. split; [congruence | exact Hall].
Qed.

Lemma exercises_view_lists_the_selection_witness :
  unitInterval (fun _ => 1 # 2)%Q /\
  exercisesWithEnglish sampleResults <> [] /\
  loadNextSessionExercises (fun _ => 1 # 2)%Q
    (FetchResolved true "200" "OK" (Some sampleResults))
  = (["Lunge"; "Row"; "Curl"; "Plank"; "Dip"], EmptyString).
Proof.
  assert (Hr : unitInterval (fun _ => 1 # 2)%Q).
  { intros k. unfold Qle, Qlt. cbn. lia. }
  assert (Hne : exercisesWithEnglish sampleResults <> []) by discriminate.
  split; [exact Hr|]. split; [exact Hne|].
  destruct (exercises_view_lists_the_selection (fun _ => 1 # 2)%Q "200" "OK"
              sampleResults Hr Hne) as (names & Hview & _ & _).
  rewrite Hview. vm_compute in Hview. injection Hview as <-. reflexivity.
Defined.

Lemma errorPlaceholder_not_empty (message : string) :
  errorPlaceholder message <> EmptyString.
Proof.
  unfold errorPlaceholder.
  destruct (includes message "Failed to fetch" || includes message "NetworkError");
    [discriminate|].
  destruct (includes message "CORS"); discriminate.
Qed.

(** X4: the placeholder is cleared exactly when the response was
    successful and some fetched exercise has an English name; in every
    other case (rejected request, error status, no results, no English
    name) a message is shown and the list stays empty. *)
Theorem exercises_view_message_or_items (random : nat -> Q) (f : Fetched) :
  unitInterval random ->
  (snd (loadNextSessionExercises random f) = EmptyString <->
   exists status statusText results,
     f = FetchResolved true status statusText (Some results) /\
     exercisesWithEnglish results <> []) /\
  (snd (loadNextSessionExercises random f) <> EmptyString ->
   fst (loadNextSessionExercises random f) = []).
Proof.
  intros Hr.
  destruct f as [message | ok status statusText data]; cbn [loadNextSessionExercises].
  { split; [|reflexivity]. split.
    - intros H. cbn [snd] in H. now apply errorPlaceholder_not_empty in H.
    - intros (st & stt & res & H & _). discriminate H. }
  destruct ok; cbn [negb].
  2:{ split; [|reflexivity]. split.
      - intros H. cbn [snd] in H. now apply errorPlaceholder_not_empty in H.
      - intros (st & stt & res & H & _). discriminate H. }
  destruct data as [results|].
  2:{ cbn. split; [|reflexivity]. split; [discriminate|].
      intros (st & stt & res & H & _). discriminate H. }
  destruct results as [|r0 results].
  { cbn. split; [|reflexivity]. split; [discriminate|].
    intros (st & stt & res & H & Hne). injection H as _ _ <-.
    exfalso. apply Hne. reflexivity. }
  cbn [List.length Nat.eqb].
  destruct (exercisesWithEnglish (r0 :: results)) as [|e0 l] eqn:He.
  { cbn. split; [|reflexivity]. split; [discriminate|].
    intros (st & stt & res & H & Hne). injection H as _ _ <-.
    exfalso. apply Hne. exact He. }
  cbn [List.length Nat.eqb].
  destruct (selection_ends_with_valid_items random (r0 :: results) Hr)
    as (selected & Hrun & _ & _).
  unfold selectExercises in Hrun. rewrite He in Hrun. rewrite Hrun. cbn [fst snd].
  split; [|congruence]. split; [|reflexivity].
  intros _. exists status, statusText, (r0 :: results).
  split; [reflexivity|]. rewrite He. discriminate.
Qed.

Lemma exercises_view_message_or_items_witness :
  unitInterval (fun _ => 1 # 2)%Q /\
  snd (loadNextSessionExercises (fun _ => 1 # 2)%Q
         (FetchResolved false "404" "Not Found" None)) <> EmptyString /\
  fst (loadNextSessionExercises (fun _ => 1 # 2)%Q
         (FetchResolved false "404" "Not Found" None)) = [].
Proof.
  assert (Hr : unitInterval (fun _ => 1 # 2)%Q).
  { intros k. unfold Qle, Qlt. cbn. lia. }
  assert (Hm : snd (loadNextSessionExercises (fun _ => 1 # 2)%Q
                      (FetchResolved false "404" "Not Found" None)) <> EmptyString)
    by discriminate.
  split; [exact Hr|]. split; [exact Hm|].
  exact (proj2 (exercises_view_message_or_items (fun _ => 1 # 2)%Q
                  (FetchResolved false "404" "Not Found" None) Hr) Hm).
Defined.

Example scenario_E :
  loadNextSessionExercises (fun _ => 1 # 2)%Q
    (FetchResolved true "200" "OK"
       (Some [mkExercise 1 (Some [mkTranslation 1 "Kniebeuge"]); mkExercise 2 None]))
  = ([], "No English exercises found from the API at the moment.").
Proof. reflexivity. Qed.

(** ** The validators *)

(** *** The matcher and the language of an expression *)

Lemma append_empty_r (s : string) : s ++ EmptyString = s.
Proof. induction s as [|c s IH]; cbn; [reflexivity | now rewrite IH]. Qed.

Lemma append_is_empty (s t : string) :
  s ++ t = EmptyString -> s = EmptyString /\ t = EmptyString.
Proof. destruct s; cbn; [tauto | discriminate]. Qed.

Lemma lang_empty_nullable (r : Regex.regex) (s : string) :
  RegexLang r s -> s = EmptyString -> Regex.nullable r = true.
Proof.
  induction 1 as [ | p c Hp | a b s t _ IHa _ IHb | a b s _ IH | a b s _ IH
                   | a s _ IH | a s t _ IHa _ IHp ]; intros He; cbn [Regex.nullable].
  - reflexivity.
  - discriminate.
  - apply append_is_empty in He. destruct He as [-> ->].
    now rewrite IHa, IHb.
  - now rewrite IH.
  - rewrite IH by assumption. apply orb_true_r.
  - now apply IH.
  - apply append_is_empty in He. now apply IHa.
Qed.

Lemma nullable_spec (r : Regex.regex) :
  Regex.nullable r = true <-> RegexLang r EmptyString.
Proof.
  split; [|intros H; now apply (lang_empty_nullable r EmptyString)].
  induction r as [ | | p | a IHa b IHb | a IHa b IHb | a IHa ]; cbn [Regex.nullable].
  - discriminate.
  - intros _. constructor.
  - discriminate.
  - intros H. apply andb_true_iff in H. destruct H as [Ha Hb].
    change EmptyString with (EmptyString ++ EmptyString). constructor; auto.
  - intros H. apply orb_true_iff in H. destruct H as [H|H];
      [apply LangAltL | apply LangAltR]; auto.
  - intros H. apply LangPlusOne. auto.
Qed.

Lemma deriv_sound (r : Regex.regex) (c : ascii) :
  forall w, RegexLang (Regex.deriv c r) w -> RegexLang r (String c w).
Proof.
  induction r as [ | | p | a IHa b IHb | a IHa b IHb | a IHa ];
    intros w H; cbn [Regex.deriv] in H.
  - inversion H.
  - inversion H.
  - destruct (p c) eqn:Hp; inversion H; subst. now constructor.
  - destruct (Regex.nullable a) eqn:Hn.
    + inversion H as [ | | | ? ? ? Hl | ? ? ? Hr | | ]; subst.
      * inversion Hl as [ | | ? ? s t Hs Ht | | | | ]; subst.
        change (String c (s ++ t)) with (String c s ++ t). constructor; auto.
      * change (String c w) with (EmptyString ++ String c w).
        constructor; [now apply nullable_spec | auto].
    + inversion H as [ | | ? ? s t Hs Ht | | | | ]; subst.
      change (String c (s ++ t)) with (String c s ++ t). constructor; auto.
  - inversion H; subst; [apply LangAltL | apply LangAltR]; auto.
  - inversion H as [ | | ? ? s t Hs Ht | | | | ]; subst.
    inversion Ht as [ | | | ? ? ? Hl | ? ? ? Hr | | ]; subst.
    + inversion Hl; subst. rewrite append_empty_r. apply LangPlusOne. auto.
    + change (String c (s ++ t)) with (String c s ++ t).
      apply LangPlusMore; auto.
Qed.

Lemma deriv_complete (r : Regex.regex) (s : string) :
  RegexLang r s ->
  forall c w, s = String c w -> RegexLang (Regex.deriv c r) w.
Proof.
  induction 1 as [ | p c0 Hp | a b s t Ha IHa Hb IHb | a b s _ IH | a b s _ IH
                   | a s _ IH | a s t Ha IHa Hp IHp ];
    intros c w He; cbn [Regex.deriv].
  - discriminate.
  - injection He as -> <-. rewrite Hp. constructor.
  - destruct s as [|c' s']; cbn [append] in He.
    + subst t. rewrite (proj2 (nullable_spec a) Ha).
      apply LangAltR. now apply IHb.
    + injection He as -> <-.
      destruct (Regex.nullable a);
        [apply LangAltL|]; constructor; auto.
  - apply LangAltL. auto.
  - apply LangAltR. auto.
  - rewrite <- (append_empty_r w). constructor; [auto|].
    apply LangAltL. constructor.
  - destruct s as [|c' s']; cbn [append] in He.
    + subst t. now apply IHp.
    + injection He as -> <-. constructor; [auto|]. now apply LangAltR.
Qed.

(** The derivative matcher accepts exactly the language of the
    expression. *)
Lemma matches_spec (s : string) :
  forall r, Regex.matches r s = true <-> RegexLang r s.
Proof.
  induction s as [|c s IH]; intros r; cbn [Regex.matches].
  - apply nullable_spec.
  - rewrite IH. split; [apply deriv_sound | intros H; now apply (deriv_complete r _ H)].
Qed.

(** *** The parts of the email pattern *)

Lemma lang_class (p : ascii -> bool) (s : string) :
  RegexLang (Regex.Class p) s <-> exists c, s = String c EmptyString /\ p c = true.
Proof.
  split.
  - intros H. inversion H; subst. eauto.
  - intros (c & -> & Hp). now constructor.
Qed.

Lemma lang_plus_class (p : ascii -> bool) (s : string) :
  RegexLang (Regex.Plus (Regex.Class p)) s <->
  s <> EmptyString /\ allChars p s = true.
Proof.
  split.
  - remember (Regex.Plus (Regex.Class p)) as r eqn:Hr.
    induction 1 as [ | | | | | a s Ha _ | a s t Ha _ Hp IHp ]; try discriminate Hr;
      injection Hr as ->.
    + apply lang_class in Ha. destruct Ha as (c & -> & Hc).
      split; [discriminate | cbn; now rewrite Hc].
    + apply lang_class in Ha. destruct Ha as (c & -> & Hc).
      destruct (IHp eq_refl) as [_ Hall].
      split; [discriminate | cbn; now rewrite Hc].
  - intros [Hne Hall]. induction s as [|c s IH]; [congruence|].
    cbn [allChars] in Hall. apply andb_true_iff in Hall. destruct Hall as [Hc Hs].
    destruct s as [|c' s'].
    + apply LangPlusOne. now constructor.
    + change (String c (String c' s')) with (String c EmptyString ++ String c' s').
      apply LangPlusMore; [now constructor|]. apply IH; [discriminate | exact Hs].
Qed.

Lemma lang_chr (a : ascii) (s : string) :
  RegexLang (Regex.Chr a) s <-> s = String a EmptyString.
Proof.
  unfold Regex.Chr. rewrite lang_class. split.
  - intros (c & -> & Hc). apply Ascii.eqb_eq in Hc. now subst.
  - intros ->. exists a. split; [reflexivity | apply Ascii.eqb_refl].
Qed.

Lemma lang_wordI (w s : string) :
  RegexLang (Regex.WordI w) s <-> toLowerCase s = toLowerCase w.
Proof.
  revert s. induction w as [|a w IH]; intros s; cbn [Regex.WordI toLowerCase].
  - split.
    + intros H. inversion H. reflexivity.
    + destruct s; [constructor | discriminate].
  - split.
    + intros H. inversion H as [ | | ? ? s1 s2 H1 H2 | | | | ]; subst.
      unfold Regex.ChrI in H1. apply lang_class in H1.
      destruct H1 as (c & -> & Hc). apply Ascii.eqb_eq in Hc.
      cbn [append toLowerCase]. rewrite Hc. f_equal. now apply IH.
    + destruct s as [|c s]; cbn [toLowerCase]; [discriminate|].
      intros [= Hc Hs].
      change (String c s) with (String c EmptyString ++ s). constructor.
      * unfold Regex.ChrI. apply lang_class. exists c.
        split; [reflexivity | now apply Ascii.eqb_eq].
      * now apply IH.
Qed.

Lemma lang_cat (a b : Regex.regex) (s : string) :
  RegexLang (Regex.Cat a b) s <->
  exists u v, s = u ++ v /\ RegexLang a u /\ RegexLang b v.
Proof.
  split.
  - intros H. inversion H; subst. eauto.
  - intros (u & v & -> & Hu & Hv). now constructor.
Qed.

Lemma lang_alt (a b : Regex.regex) (s : string) :
  RegexLang (Regex.Alt a b) s <-> RegexLang a s \/ RegexLang b s.
Proof.
  split.
  - intros H. inversion H; subst; tauto.
  - intros [H|H]; [apply LangAltL | apply LangAltR]; exact H.
Qed.

(** X5: an email address is accepted exactly when, after trimming, it is
    a local part, an at sign, a domain, a dot and "com" or "edu" in any
    letter case, where the local part and the domain are not empty and
    contain neither white space nor an at sign. *)
Theorem isValidEmail_spec (email : string) :
  isValidEmail email = true <->
  exists localPart domain tld,
    trim email = localPart ++ "@" ++ domain ++ "." ++ tld /\
    localPart <> EmptyString /\ allChars notSpaceAt localPart = true /\
    domain <> EmptyString /\ allChars notSpaceAt domain = true /\
    (toLowerCase tld = "com" \/ toLowerCase tld = "edu").
Proof.
  assert (Hre : forall s,
            Regex.matches emailRegex s = true <->
            exists localPart domain tld,
              s = localPart ++ "@" ++ domain ++ "." ++ tld /\
              localPart <> EmptyString /\ allChars notSpaceAt localPart = true /\
              domain <> EmptyString /\ allChars notSpaceAt domain = true /\
              (toLowerCase tld = "com" \/ toLowerCase tld = "edu")).
  { intros s. rewrite matches_spec. unfold emailRegex. cbv zeta.
    change (fun c : ascii => negb (isWhiteSpace c) && negb (Ascii.eqb c "@"))
      with notSpaceAt.
    rewrite lang_cat. split.
    - intros (l & r1 & -> & Hl & H1).
      apply lang_cat in H1. destruct H1 as (at_ & r2 & -> & Hat & H2).
      apply lang_cat in H2. destruct H2 as (d & r3 & -> & Hd & H3).
      apply lang_cat in H3. destruct H3 as (dot & t & -> & Hdot & Ht).
      apply lang_chr in Hat. apply lang_chr in Hdot. subst at_ dot.
      apply lang_plus_class in Hl. apply lang_plus_class in Hd.
      apply lang_alt in Ht. rewrite !lang_wordI in Ht.
      exists l, d, t. tauto.
    - intros (l & d & t & -> & Hl1 & Hl2 & Hd1 & Hd2 & Ht).
      exists l, ("@" ++ d ++ "." ++ t). split; [reflexivity|].
      split; [now apply lang_plus_class|].
      apply lang_cat. exists "@", (d ++ "." ++ t). split; [reflexivity|].
      split; [now apply lang_chr|].
      apply lang_cat. exists d, ("." ++ t). split; [reflexivity|].
      split; [now apply lang_plus_class|].
      apply lang_cat. exists ".", t. split; [reflexivity|].
      split; [now apply lang_chr|].
      apply lang_alt. now rewrite !lang_wordI. }
  unfold isValidEmail. destruct email as [|c e]; cbn [falsy].
  - split; [discriminate|].
    intros (l & d & t & H & Hl & _). change (trim EmptyString) with EmptyString in H.
    destruct l; [congruence | discriminate H].
  - apply Hre.
Qed.

Lemma isValidEmail_spec_witness :
  isValidEmail " Jane.Doe@Mail.X.Com " = true /\
  isValidEmail "jane@x.org" = false.
Proof.
  split.
  - apply (proj2 (isValidEmail_spec " Jane.Doe@Mail.X.Com ")).
    exists "Jane.Doe", "Mail.X", "Com".
    split; [reflexivity|]. split; [discriminate|]. split; [reflexivity|].
    split; [discriminate|]. split; [reflexivity|]. left. reflexivity.
  - reflexivity.
Defined.

(** *** Age *)

Lemma digit_not_space (c : ascii) :
  isDigit c = true ->
  isWhiteSpace c = false /\ Ascii.eqb c "-" = false /\ Ascii.eqb c "+" = false.
Proof.
  destruct c as [[] [] [] [] [] [] [] []]; cbn; intros H;
    try discriminate H; repeat split.
Qed.

Lemma readDigits_stops (a : Z) (k : nat) (rest : string) :
  match rest with String c _ => isDigit c = false | EmptyString => True end ->
  readDigits a k rest = (a, k, rest).
Proof. destruct rest as [|c r]; cbn [readDigits]; [reflexivity | now intros ->]. Qed.

Lemma parseInt10_natDigits (n : Z) (rest : string) :
  0 <= n ->
  match rest with String c _ => isDigit c = false | EmptyString => True end ->
  exists k,
    readDigits 0 0 (natDigits (S (Z.to_nat (Z.log2 n))) n EmptyString ++ rest)
    = (n, S k, rest).
Proof.
  intros Hn Hrest.
  destruct (readDigits_natDigits _ n (log2_fuel n Hn)) as (len & Hlen & Hread).
  rewrite Hread, readDigits_stops by exact Hrest.
  destruct len as [|k]; [lia|]. exists k.
  now rewrite Z.mul_0_l, Z.add_0_l.
Qed.

(** [parseInt] reads back the decimal form of an integer, whatever
    follows it, as long as that is not a digit. *)
Lemma parseInt10_numberToString (n : Z) (rest : string) :
  match rest with String c _ => isDigit c = false | EmptyString => True end ->
  parseInt10 (numberToString n ++ rest) = Some n.
Proof.
  intros Hrest. unfold parseInt10, numberToString.
  destruct (Z.ltb_spec n 0) as [Hneg|Hpos].
  - cbn [append trimStart]. change (isWhiteSpace "-") with false. cbv iota.
    change (Ascii.eqb "-" "-") with true. cbv iota.
    destruct (parseInt10_natDigits (- n) rest ltac:(lia) Hrest) as (k & ->).
    f_equal. lia.
  - destruct (natDigits_head _ n EmptyString (log2_fuel n Hpos))
      as (c & s & Heq & Hd & _).
    destruct (parseInt10_natDigits n rest Hpos Hrest) as (k & Hread).
    rewrite Heq in *. cbn [append trimStart] in *.
    destruct (digit_not_space c Hd) as (-> & -> & ->).
    rewrite Hread. f_equal. lia.
Qed.

(** X6: an age written as a decimal integer, with anything behind it that
    does not start with a digit, is valid exactly when the integer lies
    between 5 and 120: what follows the number is ignored. *)
Theorem isValidAge_reads_leading_integer (n : Z) (rest : string) :
  match rest with String c _ => isDigit c = false | EmptyString => True end ->
  isValidAge (numberToString n ++ rest) = (5 <=? n) && (n <=? 120).
Proof.
  intros Hrest. unfold isValidAge.
  rewrite parseInt10_numberToString by exact Hrest.
  assert (Hne : falsy (numberToString n ++ rest) = false).
  { unfold numberToString. destruct (Z.ltb_spec n 0) as [Hneg|Hpos]; [reflexivity|].
    destruct (natDigits_head _ n EmptyString (log2_fuel n Hpos)) as (c & s & -> & _).
    reflexivity. }
  now rewrite Hne.
Qed.

Lemma isValidAge_reads_leading_integer_witness :
  isDigit "." = false /\
  isValidAge (numberToString 30 ++ ".5 years") = true /\
  isValidAge (numberToString 121 ++ EmptyString) = false.
Proof.
  split; [reflexivity|]. split.
  - exact (isValidAge_reads_leading_integer 30 ".5 years" eq_refl).
  - exact (isValidAge_reads_leading_integer 121 EmptyString I).
Defined.

(** *** Phone *)

Lemma stripNonDigits_length (s : string) :
  String.length (stripNonDigits s) = countDigits s.
Proof.
  induction s as [|c s IH]; cbn [stripNonDigits countDigits]; [reflexivity|].
  destruct (isDigit c); cbn [String.length]; now rewrite ?IH.
Qed.

Lemma countDigits_append (a b : string) :
  countDigits (a ++ b) = (countDigits a + countDigits b)%nat.
Proof.
  induction a as [|c a IH]; cbn [append countDigits]; [reflexivity|].
  destruct (isDigit c); now rewrite IH.
Qed.

Lemma isValidPhone_count (phone : string) :
  isValidPhone phone = (countDigits phone =? 11)%nat.
Proof.
  unfold isValidPhone. destruct phone as [|c r]; [reflexivity|].
  cbn [falsy]. now rewrite stripNonDigits_length.
Qed.

(** X7: a phone number is valid exactly when it holds 11 decimal digits,
    wherever they stand; a character that is not a digit can be put in or
    taken out anywhere without changing the verdict. *)
Theorem isValidPhone_ignores_formatting (before after : string) (c : ascii) :
  isDigit c = false ->
  isValidPhone (before ++ String c after) = isValidPhone (before ++ after) /\
  isValidPhone (before ++ after)
  = (countDigits before + countDigits after =? 11)%nat.
Proof.
  intros Hc. rewrite !isValidPhone_count, !countDigits_append.
  cbn [countDigits]. now rewrite Hc.
Qed.

Lemma isValidPhone_ignores_formatting_witness :
  isDigit "-" = false /\
  isValidPhone ("0123" ++ String "-" "4567890") = isValidPhone ("0123" ++ "4567890").
Proof.
  split; [reflexivity|].
  exact (proj1 (isValidPhone_ignores_formatting "0123" "4567890" "-" eq_refl)).
Defined.

(** *** End date after start date *)

Lemma isEndDateAfterStartDate_lt (startDate endDate : string) :
  isEndDateAfterStartDate startDate endDate = true <->
  exists x y, newDate startDate = Some x /\ newDate endDate = Some y /\ x < y.
Proof.
  unfold isEndDateAfterStartDate, gtDate. split.
  - destruct (falsy startDate || falsy endDate); [discriminate|].
    destruct (newDate endDate) as [y|]; [|discriminate].
    destruct (newDate startDate) as [x|]; [|discriminate].
    intros H. apply Z.ltb_lt in H. eauto.
  - intros (x & y & Hx & Hy & Hlt).
    assert (Hs : falsy startDate = false) by (destruct startDate; [discriminate Hx | reflexivity]).
    assert (He : falsy endDate = false) by (destruct endDate; [discriminate Hy | reflexivity]).
    rewrite Hs, He, Hx, Hy. cbn [orb]. now apply Z.ltb_lt.
Qed.

(** X8: "end date after start date" is a strict order on date strings: no
    date is after itself (an end date equal to the start date is
    rejected), it never holds in both directions, and it is transitive.
    On two dates in the form of a date input it holds exactly when the
    day number of the end date is the greater one. *)
Theorem isEndDateAfterStartDate_strict_order :
  (forall d, isEndDateAfterStartDate d d = false) /\
  (forall a b, isEndDateAfterStartDate a b = true ->
               isEndDateAfterStartDate b a = false) /\
  (forall a b c, isEndDateAfterStartDate a b = true ->
                 isEndDateAfterStartDate b c = true ->
                 isEndDateAfterStartDate a c = true) /\
  (forall a b y1 m1 d1 y2 m2 d2,
     parseIsoDate a = Some (y1, m1, d1) -> parseIsoDate b = Some (y2, m2, d2) ->
     isEndDateAfterStartDate a b
     = (daysFromCivil y1 m1 d1 <? daysFromCivil y2 m2 d2)).
Proof.
  split; [|split; [|split]].
  - intros d. destruct (isEndDateAfterStartDate d d) eqn:H; [|reflexivity].
    apply isEndDateAfterStartDate_lt in H. destruct H as (x & y & Hx & Hy & Hlt).
    rewrite Hx in Hy. injection Hy as <-. lia.
  - intros a b H. destruct (isEndDateAfterStartDate b a) eqn:H'; [|reflexivity].
    apply isEndDateAfterStartDate_lt in H. apply isEndDateAfterStartDate_lt in H'.
    destruct H as (x & y & Hx & Hy & Hlt). destruct H' as (x' & y' & Hx' & Hy' & Hlt').
    rewrite Hx in Hy'. rewrite Hy in Hx'. injection Hy' as <-. injection Hx' as <-. lia.
  - intros a b c H1 H2.
    apply isEndDateAfterStartDate_lt in H1. apply isEndDateAfterStartDate_lt in H2.
    destruct H1 as (x & y & Hx & Hy & Hlt). destruct H2 as (y' & z & Hy' & Hz & Hlt').
    rewrite Hy in Hy'. injection Hy' as <-.
    apply isEndDateAfterStartDate_lt. exists x, z. repeat split; try assumption. lia.
  - intros a b y1 m1 d1 y2 m2 d2 Ha Hb.
    unfold isEndDateAfterStartDate, newDate.
    rewrite (falsy_of_parsed a _ _ _ Ha), (falsy_of_parsed b _ _ _ Hb), Ha, Hb.
    cbn [orb gtDate]. unfold msPerDay.
    destruct (Z.ltb_spec (daysFromCivil y1 m1 d1) (daysFromCivil y2 m2 d2));
      [apply Z.ltb_lt | apply Z.ltb_ge]; lia.
Qed.

Lemma isEndDateAfterStartDate_strict_order_witness :
  isEndDateAfterStartDate "2024-05-10" "2024-05-17" = true /\
  isEndDateAfterStartDate "2024-05-17" "2024-05-10" = false.
Proof.
  split; [reflexivity|].
  destruct isEndDateAfterStartDate_strict_order as (_ & Hasym & _).
  exact (Hasym "2024-05-10" "2024-05-17" eq_refl).
Defined.

(** ** Today's date *)

Lemma allFrom_spec (p : positive) :
  forall from f, allFrom p from f = true ->
  forall z, from <= z < from + Z.pos p -> f z = true.
Proof.
  induction p as [q IH | q IH | ]; intros from f H z Hz; cbn [allFrom] in H.
  - apply andb_true_iff in H. destruct H as [H H3].
    apply andb_true_iff in H. destruct H as [H1 H2].
    destruct (Z.lt_ge_cases z (from + Z.pos q)) as [Hlt|Hge];
      [apply (IH _ _ H1); lia|].
    destruct (Z.lt_ge_cases z (from + Z.pos q + Z.pos q)) as [Hlt2|Hge2];
      [apply (IH _ _ H2); lia|].
    replace z with (from + Z.pos q + Z.pos q) by lia. exact H3.
  - apply andb_true_iff in H. destruct H as [H1 H2].
    destruct (Z.lt_ge_cases z (from + Z.pos q)) as [Hlt|Hge];
      [apply (IH _ _ H1); lia | apply (IH _ _ H2); lia].
  - replace z with from by lia. exact H.
Qed.

Lemma cycle_checked : allFrom 146097 0 cycleDayOK = true.
Proof. vm_compute. reflexivity. Qed.

Lemma isLeapYear_cycle (y k : Z) : isLeapYear (y + k * 400) = isLeapYear y.
Proof.
  unfold isLeapYear.
  replace ((y + k * 400) mod 4) with (y mod 4)
    by (replace (y + k * 400) with (y + (k * 100) * 4) by lia;
        now rewrite Z.mod_add by lia).
  replace ((y + k * 400) mod 100) with (y mod 100)
    by (replace (y + k * 400) with (y + (k * 4) * 100) by lia;
        now rewrite Z.mod_add by lia).
  now rewrite Z.mod_add by lia.
Qed.

Lemma daysInMonth_cycle (y k m : Z) : daysInMonth (y + k * 400) m = daysInMonth y m.
Proof. unfold daysInMonth. now rewrite isLeapYear_cycle. Qed.

(** The civil date of a day number is a date of the calendar, and
    [daysFromCivil] leads back from it to the day number. *)
Lemma civilFromDays_spec (z : Z) :
  let '(y, m, d) := civilFromDays z in
  1 <= m <= 12 /\ 1 <= d <= daysInMonth y m /\ daysFromCivil y m d = z.
Proof.
  unfold civilFromDays. cbv zeta.
  set (z' := z + 719468).
  set (era := z' / 146097).
  set (doe := z' - era * 146097).
  assert (Hdoe : 0 <= doe < 0 + 146097).
  { subst doe era. pose proof (Z.div_mod z' 146097 ltac:(lia)).
    pose proof (Z.mod_pos_bound z' 146097 ltac:(lia)). lia. }
  pose proof (allFrom_spec _ _ _ cycle_checked doe Hdoe) as Hok.
  unfold cycleDayOK in Hok. cbv zeta in Hok.
  set (yoe := (doe - doe / 1460 + doe / 36524 - doe / 146096) / 365) in *.
  set (doy := doe - (365 * yoe + yoe / 4 - yoe / 100)) in *.
  set (mp := (5 * doy + 2) / 153) in *.
  set (d := doy - (153 * mp + 2) / 5 + 1) in *.
  set (m := if mp <? 10 then mp + 3 else mp - 9) in *.
  repeat (apply andb_true_iff in Hok; destruct Hok as [Hok ?]).
  repeat match goal with
         | H : (_ <=? _) = true |- _ => apply Z.leb_le in H
         | H : (_ =? _) = true |- _ => apply Z.eqb_eq in H
         end.
  assert (Hera : z = era * 146097 + doe - 719468) by (subst doe z'; lia).
  clearbody yoe doy mp d m era doe. clear z'.
  unfold daysFromCivil.
  destruct (Z.leb_spec m 2) as [Hm|Hm].
  - replace (yoe + era * 400 + 1) with (yoe + 1 + era * 400) by lia.
    rewrite daysInMonth_cycle. split; [lia|]. split; [lia|].
    replace (yoe + 1 + era * 400 - 1) with (yoe + era * 400) by lia.
    replace ((yoe + era * 400) / 400) with era
      by (apply (Z.div_unique_pos _ _ _ yoe); lia).
    replace (yoe + era * 400 - era * 400) with yoe by lia.
    cbv zeta. subst mp. lia.
  - rewrite daysInMonth_cycle. split; [lia|]. split; [lia|].
    replace ((yoe + era * 400) / 400) with era
      by (apply (Z.div_unique_pos _ _ _ yoe); lia).
    replace (yoe + era * 400 - era * 400) with yoe by lia.
    cbv zeta. subst mp. lia.
Qed.

Lemma fixedDigits_digit (n : nat) (acc m : Z) (r : string) :
  0 <= m <= 9 ->
  fixedDigits (S n) acc (String (digitChar m) r) = fixedDigits n (10 * acc + m) r.
Proof.
  intros Hm. cbn [fixedDigits].
  now destruct (digitChar_spec m Hm) as [-> ->].
Qed.

Lemma log2_at_least (n k : Z) : 0 <= k -> 2 ^ k <= n -> k <= Z.log2 n.
Proof.
  intros Hk H. rewrite <- (Z.log2_pow2 k Hk). apply Z.log2_le_mono. exact H.
Qed.

(** The year, as it is printed and read back, when it has four digits. *)
Lemma fixedDigits_year (y : Z) (rest : string) :
  1000 <= y <= 9999 ->
  fixedDigits 4 0 (numberToString y ++ rest) = Some (y, rest).
Proof.
  intros Hy. unfold numberToString.
  rewrite (proj2 (Z.ltb_ge y 0)) by lia.
  pose proof (log2_at_least y 9 ltac:(lia) ltac:(cbn; lia)) as Hlog.
  destruct (Z.to_nat (Z.log2 y)) as [|[|[|f]]] eqn:Hf; try lia.
  pose proof (Z.div_mod y 10 ltac:(lia)).
  pose proof (Z.mod_pos_bound y 10 ltac:(lia)).
  pose proof (Z.div_mod (y / 10) 10 ltac:(lia)).
  pose proof (Z.mod_pos_bound (y / 10) 10 ltac:(lia)).
  pose proof (Z.div_mod (y / 10 / 10) 10 ltac:(lia)).
  pose proof (Z.mod_pos_bound (y / 10 / 10) 10 ltac:(lia)).
  rewrite natDigits_large by lia.
  rewrite natDigits_large by lia.
  rewrite natDigits_large by lia.
  rewrite natDigits_small by lia.
  cbn [append].
  rewrite !fixedDigits_digit by lia.
  cbn [fixedDigits].
  match goal with |- Some (?a, _) = Some (?b, _) => replace a with b by lia end.
  reflexivity.
Qed.

(** A month or a day of the month, as it is printed, padded and read
    back. *)
Lemma fixedDigits_two (n : Z) (rest : string) :
  0 <= n <= 99 ->
  fixedDigits 2 0 (padStart2 (numberToString n) ++ rest) = Some (n, rest).
Proof.
  intros Hn. unfold numberToString.
  rewrite (proj2 (Z.ltb_ge n 0)) by lia.
  destruct (Z.lt_ge_cases n 10) as [Hs|Hl].
  - rewrite natDigits_small by lia. cbn [padStart2 append].
    change "0"%char with (digitChar 0).
    rewrite !fixedDigits_digit by lia. cbn [fixedDigits].
  match goal with |- Some (?a, _) = Some (?b, _) => replace a with b by lia end.
  reflexivity.
  - pose proof (log2_at_least n 3 ltac:(lia) ltac:(cbn; lia)) as Hlog.
    destruct (Z.to_nat (Z.log2 n)) as [|f] eqn:Hf; try lia.
    pose proof (Z.div_mod n 10 ltac:(lia)).
    pose proof (Z.mod_pos_bound n 10 ltac:(lia)).
    rewrite natDigits_large by lia.
    rewrite natDigits_small by lia.
    cbn [padStart2 append].
    rewrite !fixedDigits_digit by lia. cbn [fixedDigits].
  match goal with |- Some (?a, _) = Some (?b, _) => replace a with b by lia end.
  reflexivity.
Qed.

(** [getTodayDate] writes the local date in the form that
    [parseIsoDate] reads, as long as the year has four digits. *)
Lemma parseIsoDate_getTodayDate (E : Env) (y m d : Z) :
  localCivil E = (y, m, d) ->
  1000 <= y <= 9999 ->
  parseIsoDate (getTodayDate E) = Some (y, m, d) /\
  daysFromCivil y m d = localDay E (now E).
Proof.
  intros Hc Hy. unfold getTodayDate. rewrite Hc.
  pose proof (civilFromDays_spec (localDay E (now E))) as Hs.
  unfold localCivil in Hc. rewrite Hc in Hs. destruct Hs as (Hm & Hd & Hdays).
  split; [|exact Hdays].
  assert (Hd31 : daysInMonth y m <= 31).
  { unfold daysInMonth. destruct (m =? 2); [destruct (isLeapYear y); lia|].
    destruct ((m =? 4) || (m =? 6) || (m =? 9) || (m =? 11)); lia. }
  unfold parseIsoDate.
  rewrite fixedDigits_year by exact Hy. cbn [append].
  rewrite fixedDigits_two by lia. cbn [append].
  rewrite <- (append_empty_r (padStart2 (numberToString d))).
  rewrite fixedDigits_two by lia.
  rewrite (proj2 (Z.leb_le 1 m)), (proj2 (Z.leb_le m 12)),
          (proj2 (Z.leb_le 1 d)), (proj2 (Z.leb_le d _)) by lia.
  reflexivity.
Qed.

(** X9: when the local year has four digits, the string that
    [getTodayDate] returns is read back by [new Date] as midnight UTC of
    the local calendar day. *)
Theorem getTodayDate_parses_back (E : Env) (y m d : Z) :
  localCivil E = (y, m, d) ->
  1000 <= y <= 9999 ->
  parseIsoDate (getTodayDate E) = Some (y, m, d) /\
  newDate (getTodayDate E) = Some (localDay E (now E) * msPerDay).
Proof.
  intros Hc Hy. destruct (parseIsoDate_getTodayDate E y m d Hc Hy) as [Hp Hd].
  split; [exact Hp|]. unfold newDate. now rewrite Hp, Hd.
Qed.

Lemma getTodayDate_parses_back_witness :
  localCivil envNewYork = (2024, 5, 10) /\
  1000 <= 2024 <= 9999 /\
  newDate (getTodayDate envNewYork)
  = Some (localDay envNewYork (now envNewYork) * msPerDay).
Proof.
  split; [reflexivity|]. split; [lia|].
  exact (proj2 (getTodayDate_parses_back envNewYork 2024 5 10 eq_refl
                  ltac:(lia))).
Defined.

(** X10: whether today's date passes the start-date check depends only on
    the side of UTC: with a local offset from 0 up to 24 hours the date
    that [getTodayDate] returns is accepted, with a negative offset it is
    rejected. *)
Theorem today_is_accepted_only_east_of_utc (E : Env) (y m d : Z) :
  localCivil E = (y, m, d) ->
  1000 <= y <= 9999 ->
  - msPerDay <= tzOffsetMs E < msPerDay ->
  isDateNotInPast E (getTodayDate E) = (0 <=? tzOffsetMs E).
Proof.
  intros Hc Hy Htz. destruct (parseIsoDate_getTodayDate E y m d Hc Hy) as [Hp Hd].
  rewrite (isDateNotInPast_days E _ y m d Hp), Hd.
  destruct (Z.leb_spec 0 (tzOffsetMs E)) as [He|Hw].
  - rewrite localDay_of_utc_midnight_east by lia. apply Z.leb_refl.
  - rewrite localDay_of_utc_midnight_west by lia. apply Z.leb_gt. lia.
Qed.

Lemma today_is_accepted_only_east_of_utc_witness :
  localCivil envNewYork = (2024, 5, 10) /\
  1000 <= 2024 <= 9999 /\
  - msPerDay <= tzOffsetMs envNewYork < msPerDay /\
  isDateNotInPast envNewYork (getTodayDate envNewYork) = false.
Proof.
  assert (Htz : - msPerDay <= tzOffsetMs envNewYork < msPerDay)
    by (unfold msPerDay; cbn; lia).
  split; [reflexivity|]. split; [lia|]. split; [exact Htz|].
  exact (today_is_accepted_only_east_of_utc envNewYork 2024 5 10 eq_refl
           ltac:(lia) Htz).
Defined.

(** X11: on a date in the form of a date input, and with a local offset
    of less than 24 hours, the start-date check compares calendar days:
    at UTC and east of it the date passes when its day is the current
    local day or a later one, west of UTC only when its day is strictly
    later than the current local day. *)
Theorem start_date_check_by_offset (E : Env) (s : string) (y m d : Z) :
  - msPerDay <= tzOffsetMs E < msPerDay ->
  parseIsoDate s = Some (y, m, d) ->
  isDateNotInPast E s =
    if 0 <=? tzOffsetMs E
    then localDay E (now E) <=? daysFromCivil y m d
    else localDay E (now E) <? daysFromCivil y m d.
Proof.
  intros Htz H. destruct (Z.leb_spec 0 (tzOffsetMs E)) as [He|Hw].
  - apply isDateNotInPast_east; [lia | exact H].
  - apply isDateNotInPast_west; [lia | exact H].
Qed.

Lemma start_date_check_by_offset_witness :
  - msPerDay <= tzOffsetMs envNewYork < msPerDay /\
  parseIsoDate "2024-05-11" = Some (2024, 5, 11) /\
  isDateNotInPast envNewYork "2024-05-11" = true /\
  isDateNotInPast envCairo "2024-05-09" = false.
Proof.
  assert (Hw : - msPerDay <= tzOffsetMs envNewYork < msPerDay)
    by (unfold msPerDay; cbn; lia).
  assert (He : - msPerDay <= tzOffsetMs envCairo < msPerDay)
    by (unfold msPerDay; cbn; lia).
  split; [exact Hw|]. split; [reflexivity|]. split.
  - exact (start_date_check_by_offset envNewYork "2024-05-11" 2024 5 11 Hw eq_refl).
  - exact (start_date_check_by_offset envCairo "2024-05-09" 2024 5 9 He eq_refl).
Defined.

(** ** The page as a state machine *)

(** What an event can do to the collection and to the stored item:
    nothing, or one of the three mutations, each of which saves the
    collection it has produced. *)
Lemma handle_cases (e : Event) (s : App) :
  let s' := handle e s in
  (clients s' = clients s /\ storage s' = storage s) \/
  (storage s' = Some (stringifyClients (clients s')) /\
   (clients s' = clients s \/
    (exists E, e = ClickAddClient E /\ validSubmission E (form s) /\
               clients s' = (clients s ++ [clientOfForm (now E) (form s)])%list) \/
    (exists E before old after,
        e = ClickAddClient E /\ validSubmission E (form s) /\
        clients s = (before ++ old :: after)%list /\
        clients s' = (before ++ clientOfForm (id old) (form s) :: after)%list) \/
    (exists i, e = ClickDelete i true /\
               clients s' = filter (fun c => negb (id c =? i)) (clients s)))).
Proof.
  cbv zeta. destruct e as [f | q | E | | | | | i ok | i | i | ]; cbn [handle];
    try (left; split; reflexivity).
  - (* the submit button *)
    destruct (firstViolated E (form s)) as [r|] eqn:Hv.
    { rewrite (clickAddClient_rejected E s r Hv). left. split; reflexivity. }
    destruct (editingId s) as [eid|] eqn:He.
    + destruct (in_dec Z.eq_dec eid (map id (clients s))) as [Hin|Hout].
      * destruct (first_with_id eid (clients s) Hin)
          as (before & old & after & Hl & Ho & Hb).
        rewrite (clickAddClient_edit_found E s eid before after old Hv He Hl Ho Hb).
        right. cbn [clients storage]. split; [reflexivity|].
        right. right. left. exists E, before, old, after. repeat split; assumption.
      * rewrite (clickAddClient_edit_missing E s eid Hv He Hout).
        right. cbn [clients storage]. split; [reflexivity | left; reflexivity].
    + rewrite (clickAddClient_add E s Hv He).
      right. cbn [clients storage]. split; [reflexivity|].
      right. left. exists E. repeat split. exact Hv.
  - (* applySearch *)
    unfold applySearch. destruct (falsy (toLowerCase (trim (searchInput s))));
      left; split; reflexivity.
  - (* delete *)
    unfold clickDelete. destruct (findById i (clients s)) as [c|];
      [|left; split; reflexivity].
    destruct ok; cbn [negb]; [|left; split; reflexivity].
    right. split; [reflexivity|]. right. right. right. exists i. split; reflexivity.
  - unfold clickEdit. destruct (findById i (clients s)); left; split; reflexivity.
  - unfold clickView. destruct (findById i (clients s)); left; split; reflexivity.
  - unfold clickEditFromView. destruct (currentViewedId s) as [v|];
      [destruct (findById v (clients s))|]; left; split; reflexivity.
Qed.

Lemma reloaded_init (st : Storage) (s0 : App) :
  initApp st = Some s0 -> reloaded s0 = Some (clients s0).
Proof.
  unfold initApp, reloaded.
  destruct (loadClients st) as [v logged] eqn:Hl.
  destruct (clientsOfJson v) as [l|] eqn:Hc; [|discriminate].
  intros [= <-]. cbn [storage clients renderClientTable emit]. now rewrite Hl.
Qed.

Lemma reloaded_handle (e : Event) (s : App) :
  reloaded s = Some (clients s) ->
  reloaded (handle e s) = Some (clients (handle e s)).
Proof.
  intros H. destruct (handle_cases e s) as [[Hc Hs] | [Hs _]]; unfold reloaded.
  - rewrite Hs, Hc. exact H.
  - rewrite Hs.
    change (Some (stringifyClients (clients (handle e s))))
      with (saveClients (clients (handle e s)) None).
    rewrite loadClients_saveClients. apply clientsOfJson_jsonOfClients.
Qed.

Lemma run_app (events more : list Event) (s : App) :
  run (events ++ more) s = run more (run events s).
Proof. unfold run. apply fold_left_app. Qed.

(** X12: whatever the user does after the page has loaded, the stored
    item keeps up with the collection in memory: a reload at any moment
    would start from the very collection that the page holds. *)
Theorem store_mirrors_collection (st : Storage) (s0 : App) (events : list Event) :
  initApp st = Some s0 ->
  reloaded (run events s0) = Some (clients (run events s0)).
Proof.
  intros Hinit. apply reloaded_init in Hinit.
  revert s0 Hinit. induction events as [|e events IH]; intros s0 Hinit.
  - exact Hinit.
  - cbn [run fold_left]. apply IH. now apply reloaded_handle.
Qed.

Lemma store_mirrors_collection_witness :
  let events := [TypeInForm formJane; ClickAddClient envCairo;
                 ClickEdit 1715342400000; ClickCancelEdit;
                 ClickDelete 1715000000000 true] in
  let s0 := appWith [clientMona] None emptyForm in
  initApp (Some (stringifyClients [clientMona]))
  = Some (renderClientTable [clientMona] s0) /\
  clients (run events (renderClientTable [clientMona] s0))
  = [clientOfForm 1715342400000 formJane] /\
  reloaded (run events (renderClientTable [clientMona] s0))
  = Some (clients (run events (renderClientTable [clientMona] s0))).
Proof.
  cbv zeta.
  assert (Hinit : initApp (Some (stringifyClients [clientMona]))
                  = Some (renderClientTable [clientMona]
                            (appWith [clientMona] None emptyForm)))
    by (vm_compute; reflexivity).
  split; [exact Hinit|]. split; [vm_compute; reflexivity|].
  exact (store_mirrors_collection _ _ _ Hinit).
Defined.

(** *** Well-formed records *)

Lemma or_else_trim (a b : string) :
  trim (or_else (trim a) (trim b)) = or_else (trim a) (trim b).
Proof. unfold or_else. destruct (truthy (trim a)); apply trim_idempotent. Qed.

Lemma truthy_not_falsy (s : string) : falsy s = false -> truthy s = true.
Proof. unfold truthy. now intros ->. Qed.

(** The record built from a valid submission is well formed. *)
Lemma clientOfForm_wellFormed (E : Env) (f : Form) (i : Z) :
  validSubmission E f -> wellFormed (clientOfForm i f).
Proof.
  unfold validSubmission. intros H. split_rules H.
  repeat match goal with
         | Hv : violates _ _ _ = false |- _ => cbn [violates] in Hv
         end.
  repeat match goal with
         | Hv : (_ || _) = false |- _ =>
             apply orb_false_iff in Hv; destruct Hv
         | Hv : negb _ = false |- _ => apply negb_false_iff in Hv
         end.
  unfold wellFormed, clientOfForm.
  cbn [fullName age email phone goal startDate endDate].
  unfold finalGoalOf in *.
  rewrite !trim_idempotent, or_else_trim.
  repeat split; auto using truthy_not_falsy.
  intros Ht.
  match goal with
  | Hv : (truthy _ && negb _) = false |- _ =>
      rewrite Ht in Hv; cbn [andb] in Hv; now apply negb_false_iff in Hv
  end.
Qed.

Lemma handle_wellFormed (e : Event) (s : App) :
  Forall wellFormed (clients s) -> Forall wellFormed (clients (handle e s)).
Proof.
  intros H.
  destruct (handle_cases e s)
    as [[-> _] | [_ [-> | [(E & _ & Hv & ->) | [(E & b & o & a & _ & Hv & Hl & ->) | (i & _ & ->)]]]]].
  - exact H.
  - exact H.
  - apply Forall_app. split; [exact H|]. constructor; [|constructor].
    exact (clientOfForm_wellFormed E _ _ Hv).
  - rewrite Hl in H. apply Forall_app in H. destruct H as [Hb Ha].
    apply Forall_app. split; [exact Hb|]. inversion Ha; subst.
    constructor; [exact (clientOfForm_wellFormed E _ _ Hv) | assumption].
  - rewrite Forall_forall in *. intros c Hc. apply filter_In in Hc. now apply H.
Qed.

(** X13: no sequence of events makes a collection of well-formed records
    ill formed: every record that a submission adds or rewrites has a
    name and a goal that are not empty, an email and a phone number that
    pass their validators, an age that is empty or passes its validator,
    an end date after the start date, and text fields that are stored
    trimmed. *)
Theorem records_stay_well_formed (events : list Event) (s : App) :
  Forall wellFormed (clients s) ->
  Forall wellFormed (clients (run events s)).
Proof.
  revert s. induction events as [|e events IH]; intros s H; [exact H|].
  cbn [run fold_left]. apply IH. now apply handle_wellFormed.
Qed.

Lemma records_stay_well_formed_witness :
  let s0 := appWith [] None emptyForm in
  let events := [TypeInForm formMonaPadded; ClickAddClient envCairo] in
  Forall wellFormed (clients s0) /\
  map fullName (clients (run events s0)) = ["Mona Adel"] /\
  Forall wellFormed (clients (run events s0)).
Proof.
  cbv zeta.
  assert (H0 : Forall wellFormed (clients (appWith [] None emptyForm)))
    by constructor.
  split; [exact H0|]. split; [vm_compute; reflexivity|].
  exact (records_stay_well_formed _ _ H0).
Defined.

(** *** Distinct ids *)

Lemma NoDup_map_replace (before after : list Client) (old new : Client) :
  id new = id old ->
  map id (before ++ new :: after) = map id (before ++ old :: after).
Proof. intros H. rewrite !map_app. cbn [map]. now rewrite H. Qed.

Lemma NoDup_map_filter (p : Client -> bool) (l : list Client) :
  NoDup (map id l) -> NoDup (map id (filter p l)).
Proof.
  induction l as [|c l IH]; cbn [map filter]; [constructor|].
  intros H. inversion H as [|? ? Hn Hd]; subst.
  destruct (p c); [|now apply IH].
  cbn [map]. constructor; [|now apply IH].
  intros Hin. apply Hn. apply in_map_iff in Hin.
  destruct Hin as (x & Hx & Hin). apply filter_In in Hin.
  apply in_map_iff. exists x. tauto.
Qed.

(** X14: ids that are pairwise distinct stay so under every event, provided
    that a submission in Add mode comes at a time stamp that no record
    carries as id; editing and deleting can never make two ids equal. *)
Theorem ids_stay_distinct (e : Event) (s : App) :
  NoDup (map id (clients s)) ->
  (forall E, e = ClickAddClient E -> editingId s = None ->
             ~ In (now E) (map id (clients s))) ->
  NoDup (map id (clients (handle e s))).
Proof.
  intros Hd Hfresh.
  destruct e as [f | q | E | | | | | i ok | i | i | ];
    try (match goal with
         | |- context [handle ?e s] =>
             destruct (handle_cases e s) as [[-> _] | [_ [-> | [(E' & He & _) | [(E' & b & o & a & He & _) | (i' & He & _)]]]]]
         end; try exact Hd; discriminate He).
  - (* submit *)
    cbn [handle].
    destruct (firstViolated E (form s)) as [r|] eqn:Hv.
    { rewrite (clickAddClient_rejected E s r Hv). exact Hd. }
    destruct (editingId s) as [eid|] eqn:He.
    + destruct (in_dec Z.eq_dec eid (map id (clients s))) as [Hin|Hout].
      * destruct (first_with_id eid (clients s) Hin)
          as (before & old & after & Hl & Ho & Hb).
        rewrite (clickAddClient_edit_found E s eid before after old Hv He Hl Ho Hb).
        cbn [clients].
        rewrite (NoDup_map_replace before after old) by reflexivity.
        now rewrite <- Hl.
      * rewrite (clickAddClient_edit_missing E s eid Hv He Hout). exact Hd.
    + rewrite (clickAddClient_add E s Hv He). cbn [clients].
      rewrite map_app. cbn [map id clientOfForm].
      apply NoDup_app; [exact Hd | constructor; [intros [] | constructor] |].
      intros x Hx [<-|[]]. exact (Hfresh E eq_refl eq_refl Hx).
  - (* delete *)
    destruct (handle_cases (ClickDelete i ok) s)
      as [[-> _] | [_ [-> | [(E' & He & _) | [(E' & b & o & a & He & _) | (i' & _ & ->)]]]]];
      try exact Hd; try discriminate He.
    now apply NoDup_map_filter.
Qed.

Lemma ids_stay_distinct_witness :
  let s := appWith [clientMona; clientJoan] None formJane in
  NoDup (map id (clients s)) /\
  NoDup (map id (clients (handle (ClickAddClient envCairo) s))) /\
  List.length (clients (handle (ClickAddClient envCairo) s)) = 3%nat.
Proof.
  cbv zeta.
  assert (Hd : NoDup (map id (clients (appWith [clientMona; clientJoan] None formJane)))).
  { cbn. repeat constructor; cbn; intuition discriminate. }
  split; [exact Hd|]. split; [|vm_compute; reflexivity].
  apply (ids_stay_distinct (ClickAddClient envCairo) _ Hd).
  intros E [= <-] _. cbn. intuition discriminate.
Defined.

(** *** Editing without a change *)

Lemma trim_empty : trim EmptyString = EmptyString.
Proof. reflexivity. Qed.

Lemma endDate_after_not_empty (a b : string) :
  isEndDateAfterStartDate a b = true -> falsy a = false /\ falsy b = false.
Proof.
  unfold isEndDateAfterStartDate.
  destruct (falsy a), (falsy b); cbn [orb]; intros H; try discriminate H; auto.
Qed.

(** The form that [fillFormFromClient] leaves, submitted as it is,
    describes the record again. *)
Lemma clientOfForm_fill (c : Client) :
  wellFormed c ->
  clientOfForm (id c)
    (mkForm (fullName c) (age c) (gender c) (email c) (phone c)
            EmptyString (goal c) (startDate c) (endDate c)) = c.
Proof.
  intros (Hn & _ & Ha & _ & He & _ & Hp & _ & Hg & _ & _).
  unfold clientOfForm, finalGoalOf.
  cbn [fFullName fAge fGender fEmail fPhone fGoal fGoalFree fStartDate fEndDate].
  rewrite Hn, Ha, He, Hp, trim_empty. unfold or_else, truthy. cbn [falsy negb].
  rewrite Hg. now destruct c.
Qed.

Lemma fill_valid (E : Env) (c : Client) :
  wellFormed c ->
  isDateNotInPast E (startDate c) = true ->
  validSubmission E
    (mkForm (fullName c) (age c) (gender c) (email c) (phone c)
            EmptyString (goal c) (startDate c) (endDate c)).
Proof.
  intros (Hn & Hn' & Ha & Ha' & He & He' & Hp & Hp' & Hg & Hg' & Hd) Hs.
  destruct (endDate_after_not_empty _ _ Hd) as [Hfs Hfe].
  unfold validSubmission. rewrite firstViolated_cases.
  unfold violates, finalGoalOf.
  cbn [fFullName fAge fGender fEmail fPhone fGoal fGoalFree fStartDate fEndDate].
  rewrite Hn, Ha, He, Hp, Hg, trim_empty.
  assert (Hor : or_else EmptyString (goal c) = goal c) by reflexivity.
  rewrite Hor. unfold truthy in *.
  apply negb_true_iff in Hn', Hg'.
  rewrite Hn', Hg', Hfs, Hfe, He', Hp', Hs, Hd.
  assert (Hfe' : falsy (email c) = false).
  { destruct (email c); [discriminate He' | reflexivity]. }
  assert (Hfp : falsy (phone c) = false).
  { destruct (phone c); [discriminate Hp' | reflexivity]. }
  rewrite Hfe', Hfp. cbn [orb negb].
  destruct (falsy (age c)) eqn:Hfa; cbn [negb andb]; [reflexivity|].
  rewrite Ha' by reflexivity. reflexivity.
Qed.

Lemma findById_first (i : Z) (l : list Client) (c : Client) :
  findById i l = Some c ->
  exists before after,
    l = (before ++ c :: after)%list /\ id c = i /\
    Forall (fun x => id x <> i) before.
Proof.
  unfold findById. intros H.
  destruct (find_first _ _ _ H) as (b & a & Hl & Hb & Hc).
  exists b, a. split; [exact Hl|]. split; [now apply Z.eqb_eq|].
  eapply Forall_impl; [|exact Hb]. cbn. intros x Hx. now apply Z.eqb_neq.
Qed.

(** X15: Edit on a row followed by Save Changes with the form left as it
    was filled changes nothing in the collection, when the record is well
    formed and its start date still passes the day check; the page is
    back in Add mode with an empty form, and the store holds the same
    collection. *)
Theorem edit_then_save_unchanged (E : Env) (s : App) (i : Z) (c : Client) :
  findById i (clients s) = Some c ->
  wellFormed c ->
  isDateNotInPast E (startDate c) = true ->
  let s' := run [ClickEdit i; ClickAddClient E] s in
  clients s' = clients s /\
  storage s' = Some (stringifyClients (clients s)) /\
  editingId s' = None /\ form s' = emptyForm.
Proof.
  intros Hf Hw Hs. cbv zeta. cbn [run fold_left handle].
  unfold clickEdit. rewrite Hf.
  destruct (findById_first i (clients s) c Hf) as (b & a & Hl & Hi & Hb).
  set (s1 := enterEditMode c s).
  assert (Hform : form s1 = mkForm (fullName c) (age c) (gender c) (email c)
                            (phone c) EmptyString (goal c) (startDate c)
                            (endDate c)) by reflexivity.
  assert (Hv : validSubmission E (form s1)) by (rewrite Hform; now apply fill_valid).
  assert (He : editingId s1 = Some i) by (cbn; now rewrite Hi).
  assert (Hc : clients s1 = (b ++ c :: a)%list) by (cbn; exact Hl).
  rewrite (clickAddClient_edit_found E s1 i b a c Hv He Hc Hi Hb).
  cbv zeta. cbn [clients storage editingId form].
  rewrite Hform, (clientOfForm_fill c Hw), <- Hl. auto.
Qed.

Lemma edit_then_save_unchanged_witness :
  let E := mkEnv 1714500000000 7200000 in
  let s := appWith [clientAli; clientMona] None emptyForm in
  findById 1715000000000 (clients s) = Some clientMona /\
  wellFormed clientMona /\
  isDateNotInPast E (startDate clientMona) = true /\
  clients (run [ClickEdit 1715000000000; ClickAddClient E] s) = clients s.
Proof.
  cbv zeta.
  assert (Hw : wellFormed clientMona).
  { unfold wellFormed. repeat split; try (vm_compute; reflexivity).
    intros H. vm_compute in H. discriminate H. }
  assert (Hs : isDateNotInPast (mkEnv 1714500000000 7200000) (startDate clientMona) = true)
    by (vm_compute; reflexivity).
  split; [reflexivity|]. split; [exact Hw|]. split; [exact Hs|].
  exact (proj1 (edit_then_save_unchanged (mkEnv 1714500000000 7200000)
                  (appWith [clientAli; clientMona] None emptyForm)
                  1715000000000 clientMona eq_refl Hw Hs)).
Defined.

(** X16: a record whose start date no longer passes the day check cannot be
    changed through the form as long as the start date field is left as
    it is: whatever else is typed, Save Changes leaves the collection and
    the store as they were, and the page stays in Edit mode on the
    record. *)
Theorem past_start_date_blocks_editing (E : Env) (s : App) (i : Z) (c : Client)
        (f : Form) :
  findById i (clients s) = Some c ->
  isDateNotInPast E (startDate c) = false ->
  fStartDate f = startDate c ->
  let s' := run [ClickEdit i; TypeInForm f; ClickAddClient E] s in
  clients s' = clients s /\ storage s' = storage s /\
  editingId s' = Some i /\ form s' = f /\
  exists r, effects s' = (effects s ++ [SetHash "#new"; Alert (ruleMessage r)])%list.
Proof.
  intros Hf Hs Hd. cbv zeta. cbn [run fold_left handle].
  unfold clickEdit. rewrite Hf.
  destruct (findById_first i (clients s) c Hf) as (b & a & Hl & Hi & Hb).
  set (s1 := setForm f (enterEditMode c s)).
  assert (Hform : form s1 = f) by reflexivity.
  destruct (firstViolated E (form s1)) as [r|] eqn:Hv.
  - rewrite (clickAddClient_rejected E s1 r Hv).
    cbn [emit clients storage editingId form effects s1 setForm enterEditMode
         fillFormFromClient setEditingId].
    rewrite Hi, <- app_assoc. repeat split. now exists r.
  - exfalso. rewrite Hform in Hv. split_rules Hv.
    match goal with
    | Hx : violates E f StartDateCheck = false |- _ =>
        cbn [violates] in Hx; rewrite Hd, Hs in Hx; discriminate Hx
    end.
Qed.

Lemma past_start_date_blocks_editing_witness :
  let s := appWith [clientAli; clientMona] None emptyForm in
  let f := mkForm "Mona Adel" EmptyString "female" "mona@fit.com" "01000000000"
                  EmptyString "Run 10k" "2024-05-02" "2024-09-02" in
  findById 1715000000000 (clients s) = Some clientMona /\
  isDateNotInPast envCairo (startDate clientMona) = false /\
  fStartDate f = startDate clientMona /\
  clients (run [ClickEdit 1715000000000; TypeInForm f; ClickAddClient envCairo] s)
  = clients s.
Proof.
  cbv zeta. split; [reflexivity|]. split; [vm_compute; reflexivity|].
  split; [reflexivity|].
  exact (proj1 (past_start_date_blocks_editing envCairo
                  (appWith [clientAli; clientMona] None emptyForm)
                  1715000000000 clientMona
                  (mkForm "Mona Adel" EmptyString "female" "mona@fit.com"
                          "01000000000" EmptyString "Run 10k" "2024-05-02"
                          "2024-09-02")
                  eq_refl eq_refl eq_refl)).
Defined.

(** *** Deleting one record *)

Lemma NoDup_map_middle (before after : list Client) (old : Client) :
  NoDup (map id (before ++ old :: after)) ->
  ~ In (id old) (map id before) /\ ~ In (id old) (map id after).
Proof.
  rewrite map_app. cbn [map]. intros H.
  apply NoDup_remove_2 in H. rewrite in_app_iff in H. tauto.
Qed.

(** X17: when the ids are pairwise distinct, an accepted delete removes
    the record of the clicked row and no other: the records before it and
    after it stay, in their order, and this collection is the one saved
    and rendered. *)
Theorem delete_removes_exactly_one (s : App) (before after : list Client)
        (old : Client) :
  NoDup (map id (clients s)) ->
  clients s = (before ++ old :: after)%list ->
  let s' := clickDelete (id old) true s in
  clients s' = (before ++ after)%list /\
  storage s' = Some (stringifyClients (before ++ after)) /\
  effects s' =
    (effects s ++
     [Confirm ("Delete client " ++ String JSON.dquote (fullName old)
                 ++ String JSON.dquote "?");
      RenderTable (before ++ after)
                  (clientCountText (List.length (before ++ after)))])%list.
Proof.
  intros Hd Hl. cbv zeta. rewrite Hl in Hd.
  destruct (NoDup_map_middle before after old Hd) as [Hb Ha].
  assert (Hin : In (id old) (map id (clients s))).
  { rewrite Hl, map_app. apply in_or_app. right. now left. }
  destruct (clickDelete_accepted (id old) s Hin) as (Hc & Hst & _ & _ & Hone).
  cbv zeta in *. specialize (Hone before old after Hl eq_refl Hb Ha).
  assert (Hfl : filter (fun c => negb (id c =? id old)) (clients s) = (before ++ after)%list)
    by (rewrite <- Hc; exact Hone).
  split; [exact Hone|]. split; [now rewrite Hst, Hfl|].
  unfold clickDelete.
  assert (Hfind : findById (id old) (clients s) = Some old).
  { unfold findById. rewrite Hl. clear - Hb.
    induction before as [|x before IH]; cbn [app find map In] in *.
    - now rewrite Z.eqb_refl.
    - destruct (Z.eqb_spec (id x) (id old)) as [Hx|Hx]; [tauto|]. apply IH. tauto. }
  rewrite Hfind. cbn [negb]. cbv zeta. app_simpl. rewrite Hfl, <- app_assoc.
  reflexivity.
Qed.

Lemma delete_removes_exactly_one_witness :
  let s := appWith [clientAli; clientMona; clientJoan] None emptyForm in
  NoDup (map id (clients s)) /\
  clients s = ([clientAli] ++ clientMona :: [clientJoan])%list /\
  clients (clickDelete (id clientMona) true s) = [clientAli; clientJoan].
Proof.
  cbv zeta.
  assert (Hd : NoDup (map id (clients (appWith [clientAli; clientMona; clientJoan] None emptyForm)))).
  { cbn. repeat constructor; cbn; intuition discriminate. }
  split; [exact Hd|]. split; [reflexivity|].
  exact (proj1 (delete_removes_exactly_one _ [clientAli] [clientJoan] clientMona
                  Hd eq_refl)).
Defined.

(** *** What the table shows *)

(** The effects that an event adds to the trace. *)
Lemma handle_effects (e : Event) (s : App) :
  e <> SearchSubmit ->
  exists more,
    effects (handle e s) = (effects s ++ more)%list /\
    forall rows txt, In (RenderTable rows txt) more ->
      rows = clients (handle e s) /\ txt = clientCountText (List.length rows).
Proof.
  intros Hne.
  destruct e as [f | q | E | | | | | i ok | i | i | ]; cbn [handle].
  - exists []. split; [now rewrite app_nil_r | intros ? ? []].
  - exists []. split; [now rewrite app_nil_r | intros ? ? []].
  - destruct (firstViolated E (form s)) as [r|] eqn:Hv.
    { rewrite (clickAddClient_rejected E s r Hv). eexists. split; [reflexivity|].
      intros ? ? [H|[]]. discriminate H. }
    destruct (editingId s) as [eid|] eqn:He.
    + destruct (in_dec Z.eq_dec eid (map id (clients s))) as [Hin|Hout].
      * destruct (first_with_id eid (clients s) Hin)
          as (before & old & after & Hl & Ho & Hb).
        rewrite (clickAddClient_edit_found E s eid before after old Hv He Hl Ho Hb).
        cbv zeta. cbn [clients effects]. eexists. split; [reflexivity|].
        intros ? ? [H|[H|[H|[]]]]; try discriminate H.
        injection H as <- <-. auto.
      * rewrite (clickAddClient_edit_missing E s eid Hv He Hout).
        cbv zeta. cbn [clients effects]. eexists. split; [reflexivity|].
        intros ? ? [H|[H|[]]]; try discriminate H.
        injection H as <- <-. auto.
    + rewrite (clickAddClient_add E s Hv He).
      cbv zeta. cbn [clients effects]. eexists. split; [reflexivity|].
      intros ? ? [H|[H|[]]]; try discriminate H.
      injection H as <- <-. auto.
  - exists [SetHash "#list"]. split; [reflexivity|].
    intros ? ? [H|[]]. discriminate H.
  - exists []. split; [now rewrite app_nil_r | intros ? ? []].
  - now contradiction Hne.
  - eexists. split; [reflexivity|].
    intros ? ? [H|[]]. injection H as <- <-. auto.
  - unfold clickDelete. destruct (findById i (clients s)) as [c|].
    + destruct ok; cbn [negb]; cbv zeta.
      * app_simpl. rewrite <- app_assoc. eexists. split; [reflexivity|].
        intros ? ? [H|[H|[]]]; try discriminate H. injection H as <- <-. auto.
      * eexists. split; [reflexivity|]. intros ? ? [H|[]]. discriminate H.
    + exists []. split; [now rewrite app_nil_r | intros ? ? []].
  - unfold clickEdit. destruct (findById i (clients s)) as [c|].
    + eexists. split; [reflexivity|]. intros ? ? [H|[]]. discriminate H.
    + eexists. split; [reflexivity|]. intros ? ? [H|[]]. discriminate H.
  - unfold clickView. destruct (findById i (clients s)) as [c|].
    + cbv zeta. app_simpl. rewrite <- !app_assoc. eexists. split; [reflexivity|].
      intros ? ? [H|[H|[H|[]]]]; discriminate H.
    + eexists. split; [reflexivity|]. intros ? ? [H|[]]. discriminate H.
  - unfold clickEditFromView. destruct (currentViewedId s) as [v|].
    + destruct (findById v (clients s)) as [c|].
      * eexists. split; [reflexivity|]. intros ? ? [H|[]]. discriminate H.
      * eexists. split; [reflexivity|]. intros ? ? [H|[]]. discriminate H.
    + eexists. split; [reflexivity|]. intros ? ? [H|[]]. discriminate H.
Qed.

(** X18: only a search shows a filtered table.  Whenever another event
    (a submission, a delete, Escape in the search box, ...) renders the
    table, the rows are the whole collection as it stands after the
    event, whatever the search box holds, and the count text is the one
    for that many rows. *)
Theorem only_search_filters_the_table (e : Event) (s : App)
        (more : list Effect) (rows : list Client) (txt : string) :
  e <> SearchSubmit ->
  effects (handle e s) = (effects s ++ more)%list ->
  In (RenderTable rows txt) more ->
  rows = clients (handle e s) /\ txt = clientCountText (List.length rows).
Proof.
  intros Hne He Hin.
  destruct (handle_effects e s Hne) as (more' & He' & Hall).
  rewrite He' in He. apply app_inv_head in He. subst more'. now apply Hall.
Qed.

Lemma only_search_filters_the_table_witness :
  let s := setSearchInput "ali" (appWith [clientAli; clientMona] None formJane) in
  let rows := [clientAli; clientMona; clientOfForm (now envCairo) formJane] in
  ClickAddClient envCairo <> SearchSubmit /\
  searchInput (handle (ClickAddClient envCairo) s) = "ali" /\
  effects (handle (ClickAddClient envCairo) s)
  = (effects s ++ [Alert "New client saved: Jane Doe";
                   RenderTable rows " (3 clients shown)"])%list /\
  rows = clients (handle (ClickAddClient envCairo) s).
Proof.
  cbv zeta.
  assert (Hne : ClickAddClient envCairo <> SearchSubmit) by discriminate.
  assert (He : effects (handle (ClickAddClient envCairo)
                          (setSearchInput "ali"
                             (appWith [clientAli; clientMona] None formJane)))
               = (effects (setSearchInput "ali"
                             (appWith [clientAli; clientMona] None formJane))
                  ++ [Alert "New client saved: Jane Doe";
                      RenderTable [clientAli; clientMona;
                                   clientOfForm (now envCairo) formJane]
                                  " (3 clients shown)"])%list)
    by (vm_compute; reflexivity).
  split; [exact Hne|]. split; [vm_compute; reflexivity|]. split; [exact He|].
  exact (proj1 (only_search_filters_the_table _ _ _ _ _ Hne He
                  (or_intror (or_introl eq_refl)))).
Defined.
